(** * ContFramePool: a contiguous physical-frame allocator

    Shallow embedding of [OperatingSystems/MP2_Sources/cont_frame_pool.C]
    and verification of its bookkeeping: the packed two-bit state map,
    the first-fit run search of [get_frames], the run walk of
    [release_frames], the constructor and [mark_inaccessible].

    Conventions of the embedding.
    - An [unsigned long] is a [Z] in [[0, 2^W)]; every arithmetic
      operation of the source that can leave that interval is followed by
      [wrap].  An [unsigned char] is a [Z] reduced modulo 256 where the
      source casts to it.
    - [bitmap] is a raw [unsigned char*] into physical memory.  Memory is
      a total map from byte address to byte; a pool holds the address its
      [bitmap] field points at, so two pools whose bitmaps overlap alias
      the same cells, as in the source.
    - The pool objects never change after construction (only the memory
      their bitmap points into does), so the static registry [pools] is a
      list of pool descriptors and [pool_count] is its length.
    - [Console::puts] appends a line to the console log. *)

From Stdlib Require Import ZArith List Lia Bool String Ascii.
Import ListNotations.
Local Open Scope Z_scope.

(** ** Data model *)

(** Physical memory, byte addressed. *)
Definition memory := Z -> Z.

(** [a[i] = v] through a byte pointer. *)
Definition store (m : memory) (a v : Z) : memory :=
  fun x => if x =? a then v else m x.

(** The data members of [class ContFramePool]. *)
Record ContFramePool := mkPool {
  base_frame_no : Z;
  n_frames : Z;
  info_frame_no : Z;
  bitmap_size : Z;
  bitmap : Z
}.

(** The static members [pools]/[pool_count], the memory the bitmaps live
    in, and the console. *)
Record kernel := mkKernel {
  mem : memory;
  pools : list ContFramePool;
  console : list string
}.

(** [for (x = lo; x < hi; ++x) s = body x s]: the body runs once for each
    of the [hi - lo] values of [x] (none when [hi <= lo]); [x + 1 <= hi]
    throughout, so the increment never wraps. *)
Fixpoint for_loop {A : Type} (k : nat) (x : Z) (body : Z -> A -> A) (s : A) : A :=
  match k with
  | O => s
  | S k' => for_loop k' (x + 1) body (body x s)
  end.

Definition for_range {A : Type} (lo hi : Z) (body : Z -> A -> A) (s : A) : A :=
  for_loop (Z.to_nat (hi - lo)) lo body s.

Definition newline : string := String (ascii_of_nat 10) EmptyString.

Definition msg_initialized : string :=
  ("Contiguous Frame Pool initialized" ++ newline)%string.
Definition msg_not_head : string :=
  ("Error: Frame is not Head-of-Sequence" ++ newline)%string.
Definition msg_no_pool : string :=
  ("Error: Frame does not belong to any pool" ++ newline)%string.

(** Modelled from the spec: the header [cont_frame_pool.H], which declares
    [enum class FrameState], is not part of the sources.  A frame state is
    the value of its enumerator; the spec requires that value 0 is
    [Free] ("value 0 must correspond to Free"). *)
Definition FrameState := Z.
Definition Free : FrameState := 0.

Section ContFramePool.

(** Width in bits of [unsigned long] on the target. *)
Variable W : Z.

(** The constant [FRAME_SIZE] of the missing header. *)
Variable FRAME_SIZE : Z.

(** The enumerators [FrameState::Used] and [FrameState::HoS] of the
    missing header. *)
Variable Used : FrameState.
Variable HoS : FrameState.

Definition wrap (x : Z) : Z := x mod 2 ^ W.

(** ** The packed state map *)

Definition get_state (p : ContFramePool) (m : memory) (frame_no : Z) : FrameState :=
  let rel := wrap (frame_no - base_frame_no p) in
  let bit := wrap (Z.shiftl rel 1) in
  let byte_idx := Z.shiftr bit 3 in
  let shift := Z.land bit 7 in
  let slot := m (bitmap p + byte_idx) in
  let two_bits := Z.land (Z.shiftr slot shift) 3 in
  two_bits.

Definition set_state (p : ContFramePool) (m : memory) (frame_no : Z)
                     (state : FrameState) : memory :=
  let rel := wrap (frame_no - base_frame_no p) in
  let bit := wrap (Z.shiftl rel 1) in
  let byte_idx := Z.shiftr bit 3 in
  let shift := Z.land bit 7 in
  let mask := (Z.shiftl 3 shift) mod 256 in
  let val := (Z.shiftl (state mod 256) shift) mod 256 in
  let slot := m (bitmap p + byte_idx) in
  store m (bitmap p + byte_idx)
        ((Z.lor (Z.land slot (Z.lnot mask)) val) mod 256).

(** ** needed_info_frames *)

Definition needed_info_frames (n : Z) : Z :=
  let bits := wrap (Z.shiftl n 1) in
  let bytes := Z.shiftr (wrap (bits + 7)) 3 in
  wrap (bytes + FRAME_SIZE - 1) / FRAME_SIZE.

(** ** The constructor *)

(** Lines 167-168: the loop that marks the frames holding a self-hosted
    state map, run while [base_frame_no] and [n_frames] still have the
    values the constructor was called with. *)
Definition mark_info_frames (p : ContFramePool) (info_frames : Z) (m : memory) : memory :=
  for_range 0 info_frames
    (fun i m => set_state p m (wrap (base_frame_no p + i)) Used) m.

(** Line 175: [for (i = 0; i < bitmap_size; ++i) bitmap[i] = 0]. *)
Definition zero_bitmap (p : ContFramePool) (m : memory) : memory :=
  for_range 0 (bitmap_size p) (fun i m => store m (bitmap p + i) 0) m.

(** The pool object once the member initialisers and the [if] of lines
    164-173 have run, with the memory at that point. *)
Definition init_pool (base count info : Z) (m : memory) : ContFramePool * memory :=
  let bits := wrap (Z.shiftl count 1) in
  let bsize := Z.shiftr (wrap (bits + 7)) 3 in
  if info =? 0 then
    let info_frames := needed_info_frames count in
    let bm := wrap (base * FRAME_SIZE) in
    let p0 := mkPool base count info bsize bm in
    let m1 := mark_info_frames p0 info_frames m in
    (mkPool (wrap (base + info_frames)) (wrap (count - info_frames)) info bsize bm, m1)
  else
    (mkPool base count info bsize (wrap (info * FRAME_SIZE)), m).

(** [ContFramePool::ContFramePool]; [None] is the failed [assert]. *)
Definition construct (base count info : Z) (k : kernel) : option (ContFramePool * kernel) :=
  let (p, m1) := init_pool base count info (mem k) in
  let m2 := zero_bitmap p m1 in
  if Z.of_nat (List.length (pools k)) <? 2 then
    Some (p, mkKernel m2 (pools k ++ [p]) (console k ++ [msg_initialized]))
  else None.

(** ** get_frames *)

(** Lines 190-192: the frames of the run found are marked. *)
Definition mark_run (p : ContFramePool) (m : memory) (start n_req : Z) : memory :=
  let m1 := set_state p m start HoS in
  for_range 1 n_req (fun i m => set_state p m (wrap (start + i)) Used) m1.

(** The scan of lines 186-198 with [k] frames left before [end]: the
    test [f < end] holds exactly while [k] is not zero.  The result is
    [Some start] when the function leaves through [return start] and
    [None] when the loop runs to its end. *)
Fixpoint get_frames_scan (k : nat) (p : ContFramePool) (m : memory)
                         (n_req f run start : Z) : memory * option Z :=
  match k with
  | O => (m, None)
  | S k' =>
      if get_state p m f =? Free then
        let start' := if run =? 0 then f else start in
        let run' := wrap (run + 1) in
        if run' =? n_req then (mark_run p m start' n_req, Some start')
        else get_frames_scan k' p m n_req (wrap (f + 1)) run' start'
      else get_frames_scan k' p m n_req (wrap (f + 1)) 0 start
  end.

(** The body of [get_frames], keeping apart its two ways out:
    [Some start] for [return start], [None] for either [return 0]. *)
Definition get_frames_result (p : ContFramePool) (m : memory) (n_req : Z)
  : memory * option Z :=
  if n_req =? 0 then (m, None)
  else
    let end_ := wrap (base_frame_no p + n_frames p) in
    get_frames_scan (Z.to_nat (end_ - base_frame_no p)) p m n_req
                    (base_frame_no p) 0 0.

Definition get_frames (p : ContFramePool) (m : memory) (n_req : Z) : memory * Z :=
  let (m', r) := get_frames_result p m n_req in
  (m', match r with Some start => start | None => 0 end).

(** ** mark_inaccessible *)

Definition mark_inaccessible (p : ContFramePool) (m : memory) (base count : Z) : memory :=
  let end_ := wrap (base + count) in
  for_range base end_ (fun f m => set_state p m f Used) m.

(** ** release_frames *)

(** The [while] of lines 220-223 with [k] frames left before [end]: the
    test [f < end] holds exactly while [k] is not zero. *)
Fixpoint release_walk (k : nat) (p : ContFramePool) (m : memory) (f : Z) : memory :=
  match k with
  | O => m
  | S k' =>
      if get_state p m f =? Used
      then release_walk k' p (set_state p m f Free) (wrap (f + 1))
      else m
  end.

(** The test of line 213. *)
Definition owns (p : ContFramePool) (first : Z) : bool :=
  let begin_ := base_frame_no p in
  let end_ := wrap (begin_ + n_frames p) in
  (begin_ <=? first) && (first <? end_).

(** Lines 214-224, run for the pool the test of line 213 selects; the
    result is the memory and the lines written to the console. *)
Definition release_in_pool (p : ContFramePool) (m : memory) (first : Z)
  : memory * list string :=
  let end_ := wrap (base_frame_no p + n_frames p) in
  if negb (get_state p m first =? HoS) then (m, [msg_not_head])
  else
    let m1 := set_state p m first Free in
    let f := wrap (first + 1) in
    (release_walk (Z.to_nat (end_ - f)) p m1 f, []).

(** The loop over the registry. *)
Fixpoint release_frames_in (ps : list ContFramePool) (m : memory) (first : Z)
  : memory * list string :=
  match ps with
  | [] => (m, [msg_no_pool])
  | p :: rest =>
      if owns p first then release_in_pool p m first
      else release_frames_in rest m first
  end.

Definition release_frames (k : kernel) (first : Z) : kernel :=
  let (m', out) := release_frames_in (pools k) (mem k) first in
  mkKernel m' (pools k) (console k ++ out).

(** * Specification vocabulary *)

(** ** Two-bit fields of a byte

    [field] and [put_field] name the expressions on the slot in
    [get_state] and [set_state]; both functions unfold to them. *)

Definition field (slot shift : Z) : Z := Z.land (Z.shiftr slot shift) 3.

Definition put_field (slot shift state : Z) : Z :=
  (Z.lor (Z.land slot (Z.lnot ((Z.shiftl 3 shift) mod 256)))
         ((Z.shiftl (state mod 256) shift) mod 256)) mod 256.

(** ** Well-formed pools

    The usable range of a pool is [[base_frame_no, base_frame_no + n_frames)].
    A pool is well formed when the end of that range and the bit offset of
    each of its slots are values of [unsigned long]. *)

Definition in_range (p : ContFramePool) (f : Z) : Prop :=
  base_frame_no p <= f < base_frame_no p + n_frames p.

Definition pool_wf (p : ContFramePool) : Prop :=
  0 <= base_frame_no p /\ 0 <= n_frames p /\
  base_frame_no p + n_frames p < 2 ^ W /\
  2 * n_frames p <= 2 ^ W.

(** Byte offset and bit offset of the slot of frame [f]. *)
Definition slot_byte (p : ContFramePool) (f : Z) : Z := (f - base_frame_no p) / 4.
Definition slot_shift (p : ContFramePool) (f : Z) : Z := 2 * ((f - base_frame_no p) mod 4).

(** Arguments of the constructor for which the end of the range and the
    size in bits of the state map, rounded up to a byte, are values of
    [unsigned long]. *)
Definition range_ok (base count : Z) : Prop :=
  0 <= base /\ 0 <= count /\ base + count < 2 ^ W /\ 2 * count + 7 < 2 ^ W.

(** The window of [n] frames at [g] is entirely free. *)
Definition free_run (p : ContFramePool) (m : memory) (g n : Z) : Prop :=
  forall x, g <= x < g + n -> get_state p m x = Free.

(** The window of [n] frames at [g] holds a frame below [lim] that is not
    free. *)
Definition blocked (p : ContFramePool) (m : memory) (g n lim : Z) : Prop :=
  exists x, g <= x < g + n /\ x < lim /\ get_state p m x <> Free.

(** [owner ps first] is the pool the loop of [release_frames] stops at:
    the first registered pool whose range contains [first]. *)
Fixpoint owner (ps : list ContFramePool) (first : Z) : option ContFramePool :=
  match ps with
  | [] => None
  | p :: rest => if owns p first then Some p else owner rest first
  end.

(** [released p m m' h b]: going from [m] to [m'], the frames [[h, b)] of
    pool [p] became free, where [b] is the first frame after [h] that was
    not [Used], or the end of the pool; every other frame of the pool
    kept its state and no byte outside the pool's bitmap changed. *)
Definition released (p : ContFramePool) (m m' : memory) (h b : Z) : Prop :=
  h < b <= base_frame_no p + n_frames p /\
  (forall g, h < g < b -> get_state p m g = Used) /\
  (b = base_frame_no p + n_frames p \/ get_state p m b <> Used) /\
  (forall g, h <= g < b -> get_state p m' g = Free) /\
  (forall g, in_range p g -> g < h \/ b <= g ->
             get_state p m' g = get_state p m g) /\
  (forall a, a < bitmap p \/ bitmap p + (2 * n_frames p + 7) / 8 <= a ->
             m' a = m a).

(** ** Clients of a pool

    Pool [p] is the last pool constructed.  From then on the kernel calls
    [p.get_frames n], [q.get_frames n] on a pool [q] registered before
    [p], and [release_frames first], in any order.  The runs held in [p]
    are those [p.get_frames] handed out through [return start], each
    until [release_frames] is called on its first frame; a run is the
    pair of its first frame and its length. *)

Inductive call : Type :=
| Get (n_req : Z)
| GetOther (q : ContFramePool) (n_req : Z)
| Release (first : Z).

(** The argument of [get_frames] is a value of its type ([unsigned int],
    no wider than [unsigned long]), and the other pools called are among
    those registered before [p]. *)
Definition call_ok (others : list ContFramePool) (c : call) : Prop :=
  match c with
  | Get n_req => 0 <= n_req < 2 ^ W
  | GetOther q n_req => In q others /\ 0 <= n_req < 2 ^ W
  | Release _ => True
  end.

Definition do_call (p : ContFramePool) (st : kernel * list (Z * Z)) (c : call)
  : kernel * list (Z * Z) :=
  let (k, live) := st in
  match c with
  | Get n_req =>
      let (m', r) := get_frames_result p (mem k) n_req in
      (mkKernel m' (pools k) (console k),
       match r with Some start => (start, n_req) :: live | None => live end)
  | GetOther q n_req =>
      (mkKernel (fst (get_frames q (mem k) n_req)) (pools k) (console k), live)
  | Release first =>
      (release_frames k first, filter (fun r => negb (fst r =? first)) live)
  end.

Definition do_calls (p : ContFramePool) (st : kernel * list (Z * Z)) (cs : list call)
  : kernel * list (Z * Z) :=
  fold_left (do_call p) cs st.

(** Pools [p] and [q] share no frame, and the bytes that hold the slots
    of their frames do not overlap. *)
Definition separate (p q : ContFramePool) : Prop :=
  (forall f, in_range p f -> ~ in_range q f) /\
  (bitmap q + (2 * n_frames q + 7) / 8 <= bitmap p \/
   bitmap p + (2 * n_frames p + 7) / 8 <= bitmap q).

(** Frame [g] belongs to one of the runs of [live]. *)
Definition covered (live : list (Z * Z)) (g : Z) : bool :=
  existsb (fun r => (fst r <=? g) && (g <? fst r + snd r)) live.

(** The state map agrees with the runs held: each run lies in the usable
    range, its first frame is [HoS] and its other frames are [Used]; the
    frames of the range in no run are [Free]; a frame heads one run at
    most. *)
Definition runs_ok (p : ContFramePool) (m : memory) (live : list (Z * Z)) : Prop :=
  (forall h n, In (h, n) live ->
     1 <= n /\ base_frame_no p <= h /\ h + n <= base_frame_no p + n_frames p /\
     get_state p m h = HoS /\
     (forall g, h < g < h + n -> get_state p m g = Used)) /\
  (forall g, in_range p g -> covered live g = false -> get_state p m g = Free) /\
  (forall h n n', In (h, n) live -> In (h, n') live -> n = n').

(** * Assumptions on the platform and on the missing header *)

(** [Used] and [HoS] are distinct two-bit values other than the [0] of
    [Free]. *)
Definition enumerators_ok : Prop :=
  0 < Used < 4 /\ 0 < HoS < 4 /\ Used <> HoS.

Definition frame_size_ok : Prop := 0 < FRAME_SIZE.

(** [unsigned long] has at least the 32 bits the language guarantees. *)
Hypothesis W_min : 32 <= W.
Hypothesis FRAME_SIZE_pos : frame_size_ok.
Hypothesis FrameState_ok : enumerators_ok.

Lemma Used_bits : 0 <= Used < 4.
Proof. destruct FrameState_ok as (H & _ & _). lia. Qed.

Lemma HoS_bits : 0 <= HoS < 4.
Proof. destruct FrameState_ok as (_ & H & _). lia. Qed.

Lemma Free_bits : 0 <= Free < 4.
Proof. unfold Free. lia. Qed.

(** * Two-bit fields *)

Lemma testbit_3 i : 0 <= i -> Z.testbit 3 i = (i <? 2).
Proof.
  intros Hi. change 3 with (Z.ones 2).
  destruct (Z.ltb_spec i 2).
  - apply Z.ones_spec_low; lia.
  - apply Z.ones_spec_high; lia.
Qed.

Lemma testbit_two_bits s i : 0 <= s < 4 -> 2 <= i -> Z.testbit s i = false.
Proof.
  intros Hs Hi. destruct (Z.eq_dec s 0) as [->|]; [apply Z.bits_0|].
  apply Z.bits_above_log2; try lia.
  assert (Z.log2 s < 2); [|lia].
  apply Z.log2_lt_pow2; lia.
Qed.

Lemma testbit_byte x j :
  0 <= j -> Z.testbit (x mod 256) j = (j <? 8) && Z.testbit x j.
Proof. intros Hj. change 256 with (2 ^ 8). apply Z.testbit_mod_pow2. lia. Qed.

Lemma testbit_field x sh i :
  0 <= sh -> 0 <= i ->
  Z.testbit (field x sh) i = Z.testbit x (i + sh) && (i <? 2).
Proof.
  intros Hsh Hi. unfold field.
  rewrite Z.land_spec, Z.shiftr_spec, testbit_3 by lia. reflexivity.
Qed.

Lemma testbit_put_field slot sh s j :
  0 <= sh -> 0 <= s < 4 -> 0 <= j ->
  Z.testbit (put_field slot sh s) j =
  (j <? 8) && (if (sh <=? j) && (j <? sh + 2)
               then Z.testbit s (j - sh) else Z.testbit slot j).
Proof.
  intros Hsh Hs Hj. unfold put_field.
  rewrite testbit_byte by lia.
  destruct (Z.ltb_spec j 8) as [H8|H8]; cbn [andb]; [|reflexivity].
  rewrite Z.lor_spec, Z.land_spec, Z.lnot_spec by lia.
  rewrite !testbit_byte by lia.
  apply Z.ltb_lt in H8. rewrite H8. cbn [andb].
  rewrite (Z.mod_small s) by lia.
  destruct (Z.leb_spec sh j); cbn [andb].
  - rewrite !Z.shiftl_spec by lia. rewrite testbit_3 by lia.
    destruct (Z.ltb_spec j (sh + 2)); destruct (Z.ltb_spec (j - sh) 2);
      try lia; cbn [negb].
    + rewrite andb_false_r. reflexivity.
    + rewrite andb_true_r, (testbit_two_bits s (j - sh)) by lia.
      apply orb_false_r.
  - rewrite !Z.shiftl_spec_low by lia. cbn [negb].
    rewrite andb_true_r, orb_false_r. reflexivity.
Qed.

Lemma field_put_same slot sh s :
  0 <= sh -> sh + 2 <= 8 -> 0 <= s < 4 -> field (put_field slot sh s) sh = s.
Proof.
  intros Hsh H8 Hs. apply Z.bits_inj'. intros i Hi.
  rewrite testbit_field, testbit_put_field by lia.
  destruct (Z.ltb_spec i 2); cbn [andb].
  - destruct (Z.ltb_spec (i + sh) 8); try lia.
    destruct (Z.leb_spec sh (i + sh)); try lia.
    destruct (Z.ltb_spec (i + sh) (sh + 2)); try lia. cbn [andb].
    rewrite andb_true_r. f_equal. lia.
  - rewrite andb_false_r. symmetry. apply testbit_two_bits; lia.
Qed.

Lemma field_put_other slot sh sh' s :
  0 <= sh -> 0 <= sh' -> sh' + 2 <= 8 -> 0 <= s < 4 ->
  sh' + 2 <= sh \/ sh + 2 <= sh' ->
  field (put_field slot sh s) sh' = field slot sh'.
Proof.
  intros Hsh Hsh' H8 Hs Hd. apply Z.bits_inj'. intros i Hi.
  rewrite !testbit_field, testbit_put_field by lia.
  destruct (Z.ltb_spec i 2); cbn [andb]; [|rewrite !andb_false_r; reflexivity].
  rewrite !andb_true_r.
  destruct (Z.ltb_spec (i + sh') 8); try lia. cbn [andb].
  destruct (Z.leb_spec sh (i + sh'));
    destruct (Z.ltb_spec (i + sh') (sh + 2)); cbn [andb]; try reflexivity; lia.
Qed.

Lemma field_zero sh : field 0 sh = 0.
Proof. unfold field. rewrite Z.shiftr_0_l. reflexivity. Qed.

Lemma pow2W_pos : 2 ^ 32 <= 2 ^ W.
Proof. apply Z.pow_le_mono_r; lia. Qed.

Lemma wrap_small x : 0 <= x < 2 ^ W -> wrap x = x.
Proof. apply Z.mod_small. Qed.

Lemma wrap_range x : 0 <= wrap x < 2 ^ W.
Proof. pose proof pow2W_pos. apply Z.mod_pos_bound. lia. Qed.

Lemma slot_index p f :
  pool_wf p -> in_range p f ->
  let bit := wrap (Z.shiftl (wrap (f - base_frame_no p)) 1) in
  Z.shiftr bit 3 = slot_byte p f /\ Z.land bit 7 = slot_shift p f.
Proof.
  intros (Hb & Hn & He & H2) Hf. unfold in_range in Hf. cbv zeta.
  rewrite (wrap_small (f - base_frame_no p)) by lia.
  rewrite Z.shiftl_mul_pow2 by lia. change (2 ^ 1) with 2.
  rewrite wrap_small by lia.
  rewrite Z.shiftr_div_pow2 by lia. change (2 ^ 3) with 8.
  change 7 with (Z.ones 3). rewrite Z.land_ones by lia. change (2 ^ 3) with 8.
  unfold slot_byte, slot_shift.
  split; Z.div_mod_to_equations; lia.
Qed.

Lemma get_state_slot p m f :
  pool_wf p -> in_range p f ->
  get_state p m f = field (m (bitmap p + slot_byte p f)) (slot_shift p f).
Proof.
  intros Hwf Hf. destruct (slot_index p f Hwf Hf) as [Hi Hs].
  unfold get_state. cbv zeta in *. rewrite Hi, Hs. reflexivity.
Qed.

Lemma set_state_slot p m f s :
  pool_wf p -> in_range p f ->
  set_state p m f s =
  store m (bitmap p + slot_byte p f)
        (put_field (m (bitmap p + slot_byte p f)) (slot_shift p f) s).
Proof.
  intros Hwf Hf. destruct (slot_index p f Hwf Hf) as [Hi Hs].
  unfold set_state. cbv zeta in *. rewrite Hi, Hs. reflexivity.
Qed.

Lemma slot_shift_range p f : 0 <= slot_shift p f /\ slot_shift p f + 2 <= 8.
Proof. unfold slot_shift. Z.div_mod_to_equations. lia. Qed.

Lemma slot_byte_range p f :
  0 <= n_frames p -> in_range p f ->
  0 <= slot_byte p f < (2 * n_frames p + 7) / 8.
Proof.
  unfold in_range, slot_byte. intros Hn Hf. Z.div_mod_to_equations. lia.
Qed.

(** *** The state map as a map from frames to states *)

Lemma get_state_range p m f : 0 <= get_state p m f < 4.
Proof.
  unfold get_state. cbv zeta. change 3 with (Z.ones 2).
  rewrite Z.land_ones by lia. change (2 ^ 2) with 4.
  apply Z.mod_pos_bound. lia.
Qed.

Lemma get_set_same p m f s :
  pool_wf p -> in_range p f -> 0 <= s < 4 ->
  get_state p (set_state p m f s) f = s.
Proof.
  intros Hwf Hf Hs. rewrite get_state_slot, set_state_slot by assumption.
  unfold store. rewrite Z.eqb_refl.
  pose proof (slot_shift_range p f). apply field_put_same; lia.
Qed.

Lemma get_set_other p m f g s :
  pool_wf p -> in_range p f -> in_range p g -> f <> g -> 0 <= s < 4 ->
  get_state p (set_state p m f s) g = get_state p m g.
Proof.
  intros Hwf Hf Hg Hfg Hs. rewrite !get_state_slot, set_state_slot by assumption.
  unfold store.
  destruct (Z.eqb_spec (bitmap p + slot_byte p g) (bitmap p + slot_byte p f)) as [E|E];
    [|reflexivity].
  rewrite E.
  pose proof (slot_shift_range p f). pose proof (slot_shift_range p g).
  apply field_put_other; try lia.
  unfold slot_byte, slot_shift, in_range in *. Z.div_mod_to_equations. lia.
Qed.

(** A write to the state map touches one byte of the bitmap. *)
Lemma set_state_frame p m f s a :
  pool_wf p -> in_range p f ->
  a < bitmap p \/ bitmap p + (2 * n_frames p + 7) / 8 <= a ->
  set_state p m f s a = m a.
Proof.
  intros Hwf Hf Ha. rewrite set_state_slot by assumption.
  pose proof (slot_byte_range p f (proj1 (proj2 Hwf)) Hf).
  unfold store. destruct (Z.eqb_spec a (bitmap p + slot_byte p f)); [lia|reflexivity].
Qed.

(** ** Counted loops over the state map *)

Lemma for_loop_last {A : Type} (k : nat) (x : Z) (body : Z -> A -> A) (s : A) :
  for_loop (S k) x body s = body (x + Z.of_nat k) (for_loop k x body s).
Proof.
  revert x s. induction k as [|k IH]; intros x s.
  - cbn. rewrite Z.add_0_r. reflexivity.
  - change (for_loop (S (S k)) x body s) with (for_loop (S k) (x + 1) body (body x s)).
    rewrite IH. cbn [for_loop]. f_equal. lia.
Qed.

Section SetLoop.

Variable p : ContFramePool.
Variable g : Z -> Z.
Variable s : FrameState.
Hypothesis p_wf : pool_wf p.
Hypothesis s_bits : 0 <= s < 4.

Let body := fun (i : Z) (m : memory) => set_state p m (g i) s.

Lemma for_loop_set_hit k x m j :
  (forall i, x <= i < x + Z.of_nat k -> in_range p (g i)) ->
  x <= j < x + Z.of_nat k ->
  get_state p (for_loop k x body m) (g j) = s.
Proof.
  induction k as [|k IH]; intros Hin Hj; [lia|].
  rewrite for_loop_last. unfold body at 1.
  destruct (Z.eq_dec (g (x + Z.of_nat k)) (g j)) as [E|E].
  - rewrite E. apply get_set_same; auto.
  - rewrite get_set_other; auto; try (apply Hin; lia).
    apply IH; [intros; apply Hin; lia|].
    assert (j <> x + Z.of_nat k) by congruence. lia.
Qed.

Lemma for_loop_set_miss k x m h :
  (forall i, x <= i < x + Z.of_nat k -> in_range p (g i) /\ g i <> h) ->
  in_range p h ->
  get_state p (for_loop k x body m) h = get_state p m h.
Proof.
  induction k as [|k IH]; intros Hin Hh; [reflexivity|].
  rewrite for_loop_last. unfold body at 1.
  rewrite get_set_other; auto; try (apply Hin; lia).
  apply IH; auto. intros; apply Hin; lia.
Qed.

Lemma for_loop_set_frame k x m a :
  (forall i, x <= i < x + Z.of_nat k -> in_range p (g i)) ->
  a < bitmap p \/ bitmap p + (2 * n_frames p + 7) / 8 <= a ->
  for_loop k x body m a = m a.
Proof.
  induction k as [|k IH]; intros Hin Ha; [reflexivity|].
  rewrite for_loop_last. unfold body at 1.
  rewrite set_state_frame; auto; try (apply Hin; lia).
  apply IH; auto. intros; apply Hin; lia.
Qed.

End SetLoop.

(** *** The effect of [mark_run] on a run inside the pool *)

Section MarkRun.

Variable p : ContFramePool.
Variable m : memory.
Variables start n : Z.
Hypothesis p_wf : pool_wf p.
Hypothesis n_pos : 1 <= n.
Hypothesis start_lo : base_frame_no p <= start.
Hypothesis start_hi : start + n <= base_frame_no p + n_frames p.

Lemma run_frame_wrap i : 1 <= i < n -> wrap (start + i) = start + i.
Proof. intros Hi. destruct p_wf as (? & ? & ? & ?). apply wrap_small. lia. Qed.

Lemma mark_run_head : get_state p (mark_run p m start n) start = HoS.
Proof.
  pose proof Used_bits. pose proof HoS_bits.
  unfold mark_run, for_range. cbv zeta.
  rewrite for_loop_set_miss; auto.
  - apply get_set_same; auto; unfold in_range; lia.
  - intros i Hi. rewrite run_frame_wrap by lia. unfold in_range. lia.
  - unfold in_range. lia.
Qed.

Lemma mark_run_tail f :
  start < f < start + n -> get_state p (mark_run p m start n) f = Used.
Proof.
  intros Hf. unfold mark_run, for_range. cbv zeta.
  pose proof (for_loop_set_hit p (fun i => wrap (start + i)) Used p_wf Used_bits
                (Z.to_nat (n - 1)) 1 (set_state p m start HoS) (f - start)) as H.
  cbv beta in H. rewrite (run_frame_wrap (f - start)) in H by lia.
  replace (start + (f - start)) with f in H by lia.
  apply H; [|lia].
  intros i Hi. rewrite run_frame_wrap by lia. unfold in_range. lia.
Qed.

Lemma mark_run_other f :
  in_range p f -> f < start \/ start + n <= f ->
  get_state p (mark_run p m start n) f = get_state p m f.
Proof.
  pose proof Used_bits. pose proof HoS_bits.
  intros Hf Hout. unfold mark_run, for_range. cbv zeta.
  rewrite for_loop_set_miss; auto.
  - apply get_set_other; auto; unfold in_range; lia.
  - intros i Hi. rewrite run_frame_wrap by lia. unfold in_range. lia.
Qed.

Lemma mark_run_frame a :
  a < bitmap p \/ bitmap p + (2 * n_frames p + 7) / 8 <= a ->
  mark_run p m start n a = m a.
Proof.
  pose proof Used_bits. pose proof HoS_bits.
  intros Ha. unfold mark_run, for_range. cbv zeta.
  rewrite for_loop_set_frame; auto.
  - apply set_state_frame; auto; unfold in_range; lia.
  - intros i Hi. rewrite run_frame_wrap by lia. unfold in_range. lia.
Qed.

End MarkRun.

(** ** The first-fit scan *)

Lemma blocked_not_free p m g n lim : blocked p m g n lim -> ~ free_run p m g n.
Proof. intros (x & Hx & _ & Hs) Hfree. apply Hs, Hfree, Hx. Qed.

Section Scan.

Variable p : ContFramePool.
Variable m : memory.
Variable n : Z.
Hypothesis p_wf : pool_wf p.
Hypothesis n_range : 1 <= n < 2 ^ W.

Let base := base_frame_no p.
Let end_ := base_frame_no p + n_frames p.

(** Loop invariant of the scan: [run] counts the free frames just below
    [f], [start] is the first of them, and no window that starts below
    them is free. *)
Lemma get_frames_scan_spec k : forall f run start,
  f + Z.of_nat k = end_ ->
  base <= f - run -> 0 <= run < n ->
  (run <> 0 -> start = f - run) ->
  free_run p m (f - run) run ->
  (forall g, base <= g < f - run -> blocked p m g n f) ->
  match get_frames_scan k p m n f run start with
  | (m', Some s) =>
      m' = mark_run p m s n /\
      base <= s /\ s + n <= end_ /\
      free_run p m s n /\
      (forall g, base <= g < s -> blocked p m g n s)
  | (m', None) =>
      m' = m /\
      (forall g, base <= g -> g + n <= end_ -> blocked p m g n end_)
  end.
Proof.
  destruct p_wf as (Hb & Hn & He & H2). fold base in Hb. fold end_ in He.
  induction k as [|k IH]; intros f run start Hk Hlo Hrun Hstart Hfree Hblk.
  - cbn [get_frames_scan]. split; [reflexivity|].
    intros g Hg1 Hg2. replace end_ with f by lia. apply Hblk. lia.
  - cbn [get_frames_scan].
    rewrite (wrap_small (f + 1)) by lia.
    destruct (Z.eqb_spec (get_state p m f) Free) as [Hf|Hf].
    + rewrite (wrap_small (run + 1)) by lia.
      assert (Hs : (if run =? 0 then f else start) = f - run).
      { destruct (Z.eqb_spec run 0); [lia|auto]. }
      rewrite Hs.
      assert (Hfree' : free_run p m (f - run) (run + 1)).
      { intros x Hx. destruct (Z.eq_dec x f) as [->|]; [exact Hf|].
        apply Hfree. lia. }
      destruct (Z.eqb_spec (run + 1) n) as [Hn'|Hn'].
      * split; [reflexivity|]. split; [lia|]. split; [lia|].
        split; [rewrite <- Hn'; exact Hfree'|].
        intros g Hg. destruct (Hblk g Hg) as (x & Hx1 & Hx2 & Hx3).
        exists x. split; [lia|]. split; [|exact Hx3].
        destruct (Z.lt_ge_cases x (f - run)) as [|Hge]; [assumption|].
        exfalso. apply Hx3, Hfree. lia.
      * apply IH; try lia.
        -- replace (f + 1 - (run + 1)) with (f - run) by lia. exact Hfree'.
        -- intros g Hg. destruct (Hblk g) as (x & Hx1 & Hx2 & Hx3); [lia|].
           exists x. split; [lia|]. split; [lia|exact Hx3].
    + apply IH; try lia.
      * intros x Hx. lia.
      * intros g Hg.
        destruct (Z.lt_ge_cases g (f - run)) as [Hlt|Hge].
        -- destruct (Hblk g) as (x & Hx1 & Hx2 & Hx3); [lia|].
           exists x. split; [lia|]. split; [lia|exact Hx3].
        -- exists f. split; [lia|]. split; [lia|exact Hf].
Qed.

(** What [get_frames_result] computes on a well-formed pool. *)
Lemma get_frames_result_spec :
  match get_frames_result p m n with
  | (m', Some s) =>
      m' = mark_run p m s n /\
      base <= s /\ s + n <= end_ /\
      free_run p m s n /\
      (forall g, base <= g < s -> blocked p m g n s)
  | (m', None) =>
      m' = m /\
      (forall g, base <= g -> g + n <= end_ -> blocked p m g n end_)
  end.
Proof.
  destruct p_wf as (Hb & Hn & He & H2).
  unfold get_frames_result.
  destruct (Z.eqb_spec n 0) as [|_]; [lia|]. cbv zeta.
  rewrite (wrap_small (base_frame_no p + n_frames p)) by lia.
  apply get_frames_scan_spec; unfold base, end_; try lia.
  intros x Hx. lia.
Qed.

End Scan.

(** ** The release walk *)

Lemma release_frames_in_owner ps m first :
  release_frames_in ps m first =
  match owner ps first with
  | Some p => release_in_pool p m first
  | None => (m, [msg_no_pool])
  end.
Proof.
  induction ps as [|p rest IH]; cbn [release_frames_in owner]; [reflexivity|].
  destruct (owns p first); [reflexivity|exact IH].
Qed.

Lemma owner_In ps first p : owner ps first = Some p -> In p ps /\ owns p first = true.
Proof.
  induction ps as [|q rest IH]; cbn [owner]; [discriminate|].
  destruct (owns q first) eqn:E.
  - intros [= ->]. split; [left; reflexivity|exact E].
  - intros H. destruct (IH H). split; [right|]; assumption.
Qed.

(** When the ranges of the registered pools do not overlap at [first],
    the registry resolves [first] to the one pool that contains it. *)
Lemma owner_unique ps first p :
  In p ps -> owns p first = true ->
  (forall q, In q ps -> owns q first = true -> q = p) ->
  owner ps first = Some p.
Proof.
  intros Hin Hown Huniq. induction ps as [|q rest IH]; [destruct Hin|].
  cbn [owner]. destruct (owns q first) eqn:E.
  - f_equal. apply Huniq; [left; reflexivity|exact E].
  - destruct Hin as [->|Hin]; [congruence|].
    apply IH; [exact Hin|]. intros q' Hq'. apply Huniq. right. exact Hq'.
Qed.

Lemma owns_in_range p f : pool_wf p -> (owns p f = true <-> in_range p f).
Proof.
  intros (Hb & Hn & He & H2). unfold owns, in_range. cbv zeta.
  rewrite wrap_small by lia.
  rewrite andb_true_iff, Z.leb_le, Z.ltb_lt. reflexivity.
Qed.

Section Release.

Variable p : ContFramePool.
Hypothesis p_wf : pool_wf p.

Let base := base_frame_no p.
Let end_ := base_frame_no p + n_frames p.

Lemma release_walk_spec k : forall f m,
  base <= f -> f + Z.of_nat k = end_ ->
  exists b,
    f <= b <= end_ /\
    (forall g, f <= g < b -> get_state p m g = Used) /\
    (b = end_ \/ get_state p m b <> Used) /\
    (forall g, f <= g < b -> get_state p (release_walk k p m f) g = Free) /\
    (forall g, in_range p g -> g < f \/ b <= g ->
               get_state p (release_walk k p m f) g = get_state p m g) /\
    (forall a, a < bitmap p \/ bitmap p + (2 * n_frames p + 7) / 8 <= a ->
               release_walk k p m f a = m a).
Proof.
  pose proof p_wf as (Hb & Hn & He & H2). fold base in Hb. fold end_ in He.
  pose proof Free_bits as Hfree.
  induction k as [|k IH]; intros f m Hf Hk; cbn [release_walk].
  - exists f. repeat split; try lia; auto; intros; lia.
  - assert (Hin : in_range p f) by (unfold in_range; fold base; fold end_; lia).
    destruct (Z.eqb_spec (get_state p m f) Used) as [Hu|Hu].
    + rewrite (wrap_small (f + 1)) by lia.
      destruct (IH (f + 1) (set_state p m f Free)) as (b & Hb1 & Hb2 & Hb3 & Hb4 & Hb5 & Hb6);
        try lia.
      assert (Hother : forall g, in_range p g -> g <> f ->
                get_state p (set_state p m f Free) g = get_state p m g).
      { intros g Hg Hgf. apply get_set_other; auto. }
      exists b. split; [lia|]. split; [|split; [|split; [|split]]].
      * intros g Hg. destruct (Z.eq_dec g f) as [->|Hgf]; [exact Hu|].
        rewrite <- Hother; [apply Hb2; lia| |exact Hgf].
        unfold in_range. fold base. fold end_. lia.
      * destruct Hb3 as [Hb3|Hb3]; [left; exact Hb3|].
        destruct (Z.eq_dec b end_) as [E|E]; [left; exact E|right].
        rewrite <- Hother; [exact Hb3| |lia].
        unfold in_range. fold base. fold end_. lia.
      * intros g Hg. destruct (Z.eq_dec g f) as [->|Hgf].
        -- rewrite Hb5; [|exact Hin|lia]. apply get_set_same; auto.
        -- apply Hb4. lia.
      * intros g Hg Hout. rewrite Hb5; [|exact Hg|lia]. apply Hother; [exact Hg|lia].
      * intros a Ha. rewrite Hb6 by exact Ha. apply set_state_frame; auto.
    + exists f. split; [lia|]. split; [intros; lia|]. split; [right; exact Hu|].
      split; [intros; lia|]. split; reflexivity.
Qed.

(** Lines 218-224 on a frame of the pool that is a head of sequence. *)
Lemma release_in_pool_head m h :
  in_range p h -> get_state p m h = HoS ->
  exists b,
    release_in_pool p m h = (fst (release_in_pool p m h), []) /\
    released p m (fst (release_in_pool p m h)) h b.
Proof.
  pose proof p_wf as (Hb & Hn & He & H2). fold base in Hb. fold end_ in He.
  pose proof Free_bits as Hfree.
  intros Hin Hh. unfold in_range in Hin. fold base in Hin. fold end_ in Hin.
  unfold release_in_pool. cbv zeta.
  rewrite Hh, Z.eqb_refl. cbn [negb fst].
  rewrite (wrap_small (base_frame_no p + n_frames p)) by (fold end_; lia).
  rewrite (wrap_small (h + 1)) by lia. fold end_.
  destruct (release_walk_spec (Z.to_nat (end_ - (h + 1))) (h + 1) (set_state p m h Free))
    as (b & Hb1 & Hb2 & Hb3 & Hb4 & Hb5 & Hb6); try lia.
  assert (Hother : forall g, in_range p g -> g <> h ->
            get_state p (set_state p m h Free) g = get_state p m g).
  { intros g Hg Hgh. apply get_set_other; auto. }
  exists b. split; [reflexivity|].
  unfold released. fold end_.
  split; [lia|]. split; [|split; [|split; [|split]]].
  - intros g Hg. rewrite <- Hother; [apply Hb2; lia| |lia].
    unfold in_range. fold base. fold end_. lia.
  - destruct Hb3 as [Hb3|Hb3]; [left; exact Hb3|].
    destruct (Z.eq_dec b end_) as [E|E]; [left; exact E|right].
    rewrite <- Hother; [exact Hb3| |lia].
    unfold in_range. fold base. fold end_. lia.
  - intros g Hg. destruct (Z.eq_dec g h) as [->|Hgh].
    + rewrite Hb5; [|exact Hin|lia]. apply get_set_same; auto.
    + apply Hb4. lia.
  - intros g Hg Hout. rewrite Hb5; [|exact Hg|lia]. apply Hother; [exact Hg|lia].
  - intros a Ha. rewrite Hb6 by exact Ha. apply set_state_frame; auto.
Qed.

End Release.

(** ** The constructor *)

Lemma bitmap_bytes count :
  0 <= count -> 2 * count + 7 < 2 ^ W ->
  Z.shiftr (wrap (wrap (Z.shiftl count 1) + 7)) 3 = (2 * count + 7) / 8.
Proof.
  intros H0 H1. rewrite Z.shiftl_mul_pow2 by lia. change (2 ^ 1) with 2.
  rewrite (wrap_small (count * 2)) by lia.
  rewrite wrap_small by lia.
  rewrite Z.shiftr_div_pow2 by lia. change (2 ^ 3) with 8.
  f_equal. lia.
Qed.

Lemma needed_info_frames_le count :
  0 <= count -> 2 * count + 7 < 2 ^ W ->
  0 <= needed_info_frames count <= count.
Proof.
  intros H0 H1. pose proof FRAME_SIZE_pos as HFS. unfold frame_size_ok in HFS.
  unfold needed_info_frames. cbv zeta.
  rewrite bitmap_bytes by assumption.
  set (bytes := (2 * count + 7) / 8).
  assert (Hbytes : 0 <= bytes <= count).
  { unfold bytes. Z.div_mod_to_equations. lia. }
  pose proof (wrap_range (bytes + FRAME_SIZE - 1)) as Hw.
  assert (Hle : wrap (bytes + FRAME_SIZE - 1) <= bytes + FRAME_SIZE - 1).
  { unfold wrap. apply Z.mod_le; [lia|]. pose proof pow2W_pos. lia. }
  split.
  - apply Z.div_pos; lia.
  - assert (wrap (bytes + FRAME_SIZE - 1) / FRAME_SIZE <= bytes); [|lia].
    apply Z.lt_succ_r, Z.div_lt_upper_bound; [lia|]. nia.
Qed.

Lemma zero_loop_spec bm k x m a :
  for_loop k x (fun i m => store m (bm + i) 0) m a =
  if (bm + x <=? a) && (a <? bm + x + Z.of_nat k) then 0 else m a.
Proof.
  induction k as [|k IH].
  - cbn [for_loop].
    destruct (Z.leb_spec (bm + x) a); destruct (Z.ltb_spec a (bm + x + Z.of_nat 0));
      cbn [andb]; try reflexivity; lia.
  - rewrite for_loop_last. unfold store at 1. rewrite IH.
    destruct (Z.eqb_spec a (bm + (x + Z.of_nat k)));
      destruct (Z.leb_spec (bm + x) a);
      destruct (Z.ltb_spec a (bm + x + Z.of_nat k));
      destruct (Z.ltb_spec a (bm + x + Z.of_nat (S k)));
      cbn [andb]; try reflexivity; lia.
Qed.

Lemma zero_bitmap_spec p m a :
  zero_bitmap p m a =
  if (bitmap p <=? a) && (a <? bitmap p + bitmap_size p) then 0 else m a.
Proof.
  unfold zero_bitmap, for_range. rewrite zero_loop_spec.
  rewrite Z.add_0_r, Z.sub_0_r.
  destruct (Z.leb_spec (bitmap p) a); cbn [andb]; [|reflexivity].
  destruct (Z.ltb_spec a (bitmap p + bitmap_size p));
    destruct (Z.ltb_spec a (bitmap p + Z.of_nat (Z.to_nat (bitmap_size p))));
    try reflexivity; lia.
Qed.

(** The pool object the constructor builds. *)
Lemma init_pool_fields base count info m :
  range_ok base count ->
  let p := fst (init_pool base count info m) in
  bitmap_size p = (2 * count + 7) / 8 /\
  info_frame_no p = info /\
  (info = 0 ->
     base_frame_no p = base + needed_info_frames count /\
     n_frames p = count - needed_info_frames count /\
     bitmap p = wrap (base * FRAME_SIZE)) /\
  (info <> 0 ->
     base_frame_no p = base /\ n_frames p = count /\
     bitmap p = wrap (info * FRAME_SIZE)).
Proof.
  intros (Hb & Hc & He & H2). cbv zeta.
  pose proof (needed_info_frames_le count Hc H2) as Hk.
  unfold init_pool. cbv zeta. rewrite bitmap_bytes by assumption.
  destruct (Z.eqb_spec info 0) as [Hi|Hi]; cbn [fst base_frame_no n_frames
    info_frame_no bitmap_size bitmap].
  - rewrite !wrap_small by lia. repeat split; auto; intros; lia.
  - repeat split; auto; intros; lia.
Qed.

Lemma init_pool_wf base count info m :
  range_ok base count -> pool_wf (fst (init_pool base count info m)).
Proof.
  intros Hok. pose proof (init_pool_fields base count info m Hok) as H.
  cbv zeta in H. destruct H as (_ & _ & H0 & H1).
  destruct Hok as (Hb & Hc & He & H2).
  pose proof (needed_info_frames_le count Hc H2) as Hk.
  unfold pool_wf.
  destruct (Z.eq_dec info 0) as [Hi|Hi].
  - destruct (H0 Hi) as (-> & -> & _). lia.
  - destruct (H1 Hi) as (-> & -> & _). lia.
Qed.

Lemma construct_pool base count info k p k' :
  construct base count info k = Some (p, k') ->
  p = fst (init_pool base count info (mem k)) /\
  mem k' = zero_bitmap p (snd (init_pool base count info (mem k))) /\
  pools k' = pools k ++ [p] /\
  console k' = console k ++ [msg_initialized].
Proof.
  unfold construct. destruct (init_pool base count info (mem k)) as [p0 m1].
  destruct (Z.of_nat (List.length (pools k)) <? 2); [|discriminate].
  intros [= <- <-]. cbn. auto.
Qed.

(** Every slot of the usable range reads [Free] once the bitmap is
    zeroed. *)
Lemma zeroed_free p m f :
  pool_wf p -> (2 * n_frames p + 7) / 8 <= bitmap_size p -> in_range p f ->
  get_state p (zero_bitmap p m) f = Free.
Proof.
  intros Hwf Hsz Hf. rewrite get_state_slot by assumption.
  rewrite zero_bitmap_spec.
  pose proof (slot_byte_range p f (proj1 (proj2 Hwf)) Hf).
  destruct (Z.leb_spec (bitmap p) (bitmap p + slot_byte p f)); [|lia].
  destruct (Z.ltb_spec (bitmap p + slot_byte p f) (bitmap p + bitmap_size p)); [|lia].
  cbn [andb]. apply field_zero.
Qed.

(** The constructor succeeds while the registry has room; the pool it
    builds is well formed and all its frames are free. *)
Lemma construct_spec base count info k :
  range_ok base count ->
  Z.of_nat (List.length (pools k)) < 2 ->
  exists p k',
    construct base count info k = Some (p, k') /\
    pool_wf p /\ pools k' = pools k ++ [p] /\
    (forall f, in_range p f -> get_state p (mem k') f = Free).
Proof.
  intros Hok Hcount.
  destruct (construct base count info k) as [[p k']|] eqn:E.
  2:{ unfold construct in E. destruct (init_pool base count info (mem k)).
      destruct (Z.ltb_spec (Z.of_nat (List.length (pools k))) 2); [discriminate|lia]. }
  destruct (construct_pool _ _ _ _ _ _ E) as (Hp & Hm & Hps & _).
  pose proof (init_pool_wf base count info (mem k) Hok) as Hwf.
  pose proof (init_pool_fields base count info (mem k) Hok) as Hf.
  cbv zeta in Hf. rewrite <- Hp in Hwf, Hf.
  destruct Hf as (Hsz & _ & H0 & H1).
  destruct Hok as (Hb & Hc & He & H2).
  pose proof (needed_info_frames_le count Hc H2) as Hk.
  exists p, k'. split; [reflexivity|]. split; [exact Hwf|]. split; [exact Hps|].
  intros f Hf. rewrite Hm. apply zeroed_free; auto.
  rewrite Hsz. destruct (Z.eq_dec info 0) as [Hi|Hi].
  - destruct (H0 Hi) as (_ & -> & _). Z.div_mod_to_equations. lia.
  - destruct (H1 Hi) as (_ & -> & _). lia.
Qed.

(** C10.  Right after the constructor returns, on the self-hosted path
    ([info = 0]) as on the external one, every frame of the usable range
    is [Free].  The whole packed map is zero, so the marks the
    self-hosted path wrote for its metadata frames are gone: every slot of
    the range the constructor was called with reads [Free].  What keeps
    the metadata frames out of reach is that [base_frame_no] and
    [n_frames] were moved past them. *)
Theorem constructor_leaves_all_free base count info k :
  range_ok base count ->
  Z.of_nat (List.length (pools k)) < 2 ->
  exists p k',
    construct base count info k = Some (p, k') /\
    (forall f, in_range p f -> get_state p (mem k') f = Free) /\
    (forall i, 0 <= i < bitmap_size p -> mem k' (bitmap p + i) = 0) /\
    (forall f, base <= f < base + count ->
       get_state (mkPool base count info (bitmap_size p) (bitmap p)) (mem k') f = Free) /\
    (info = 0 ->
       base_frame_no p = base + needed_info_frames count /\
       n_frames p = count - needed_info_frames count) /\
    (info <> 0 -> base_frame_no p = base /\ n_frames p = count).
Proof.
  intros Hok Hcount.
  destruct (construct_spec base count info k Hok Hcount)
    as (p & k' & E & _ & _ & Hfree).
  destruct (construct_pool _ _ _ _ _ _ E) as (Hp & Hm & _ & _).
  pose proof (init_pool_fields base count info (mem k) Hok) as Hf.
  cbv zeta in Hf. rewrite <- Hp in Hf.
  destruct Hf as (Hsz & _ & H0 & H1).
  destruct Hok as (Hb & Hc & He & H2).
  exists p, k'. split; [exact E|]. split; [exact Hfree|].
  split; [|split; [|split]].
  - intros i Hi. rewrite Hm, zero_bitmap_spec.
    destruct (Z.leb_spec (bitmap p) (bitmap p + i)); [|lia].
    destruct (Z.ltb_spec (bitmap p + i) (bitmap p + bitmap_size p)); [|lia].
    reflexivity.
  - intros f Hf. rewrite Hm.
    set (p0 := mkPool base count info (bitmap_size p) (bitmap p)).
    change (zero_bitmap p) with (zero_bitmap p0).
    apply zeroed_free.
    + unfold pool_wf, p0. cbn [base_frame_no n_frames]. lia.
    + unfold p0. cbn [bitmap_size n_frames]. rewrite Hsz. lia.
    + unfold in_range, p0. cbn [base_frame_no n_frames]. lia.
  - intros Hi. destruct (H0 Hi) as (? & ? & _). auto.
  - intros Hi. destruct (H1 Hi) as (? & ? & _). auto.
Qed.

(** ** get_frames: first fit and the failure sentinel *)

Lemma get_frames_eq p m n :
  get_frames p m n =
  (fst (get_frames_result p m n),
   match snd (get_frames_result p m n) with Some start => start | None => 0 end).
Proof. unfold get_frames. destruct (get_frames_result p m n). reflexivity. Qed.

(** C2.  When [get_frames p n], with [n >= 1], returns a frame number
    [f] other than 0, the frames [f .. f+n-1] lie in the usable range and
    were all [Free], and no frame [g] of the range below [f] starts [n]
    frames that were all [Free]: [f] is the lowest such frame. *)
Theorem get_frames_first_fit p m n m' f :
  pool_wf p -> 1 <= n < 2 ^ W ->
  get_frames p m n = (m', f) -> f <> 0 ->
  in_range p f /\ f + n <= base_frame_no p + n_frames p /\
  free_run p m f n /\
  (forall g, base_frame_no p <= g < f -> ~ free_run p m g n).
Proof.
  intros Hwf Hn Hget Hf0.
  pose proof (get_frames_result_spec p m n Hwf Hn) as Hspec.
  rewrite get_frames_eq in Hget.
  destruct (get_frames_result p m n) as [m1 [s|]]; cbn [fst snd] in Hget;
    injection Hget as <- <-; [|congruence].
  destruct Hspec as (_ & Hlo & Hhi & Hfree & Hblk).
  unfold in_range. repeat split; try lia; auto.
  intros g Hg. eapply blocked_not_free. apply Hblk, Hg.
Qed.

(** C5, amended.  For a pool whose usable range starts above frame 0,
    [get_frames p n] returns the sentinel 0 exactly when [n = 0] or no
    [n] consecutive [Free] frames exist in the usable range. *)
Theorem get_frames_zero_iff p m n :
  pool_wf p -> 0 < base_frame_no p -> 0 <= n < 2 ^ W ->
  (snd (get_frames p m n) = 0 <->
   (n = 0 \/
    ~ exists g, base_frame_no p <= g /\ g + n <= base_frame_no p + n_frames p /\
                free_run p m g n)).
Proof.
  intros Hwf Hbase Hn.
  rewrite get_frames_eq. cbn [snd].
  destruct (Z.eq_dec n 0) as [->|Hn0].
  - unfold get_frames_result. cbn. split; auto.
  - assert (Hn1 : 1 <= n < 2 ^ W) by lia.
    pose proof (get_frames_result_spec p m n Hwf Hn1) as Hspec.
    destruct (get_frames_result p m n) as [m1 [s|]]; cbn [snd].
    + destruct Hspec as (_ & Hlo & Hhi & Hfree & _). split.
      * intros ->. lia.
      * intros [H|H]; [lia|]. exfalso. apply H. exists s. auto.
    + destruct Hspec as (_ & Hblk). split; [|reflexivity].
      intros _. right. intros (g & Hg1 & Hg2 & Hfree).
      eapply blocked_not_free; [apply (Hblk g Hg1 Hg2)|exact Hfree].
Qed.

(** ** release_frames *)

Lemma owner_None ps first :
  owner ps first = None <-> (forall p, In p ps -> owns p first = false).
Proof.
  induction ps as [|q rest IH]; cbn [owner In].
  - split; [intros _ p []|reflexivity].
  - destruct (owns q first) eqn:E.
    + split; [discriminate|]. intros H. rewrite (H q) in E by auto. discriminate.
    + rewrite IH. split.
      * intros H p [<-|Hp]; auto.
      * intros H p Hp. apply H. auto.
Qed.

Lemma release_frames_eq k first :
  release_frames k first =
  mkKernel (fst (release_frames_in (pools k) (mem k) first)) (pools k)
           (console k ++ snd (release_frames_in (pools k) (mem k) first)).
Proof.
  unfold release_frames. destruct (release_frames_in (pools k) (mem k) first).
  reflexivity.
Qed.

(** C3.  Let [h] be a frame that the registry resolves to pool [p] and
    whose state is [HoS].  [release_frames h] frees [h] and the [Used]
    frames that follow it up to a boundary [b], which is the first frame
    after [h] that is not [Used], or the end of the pool's range.  The
    boundary frame and every other frame of the pool outside [[h, b)]
    keep their state, no byte outside the pool's bitmap changes, and
    nothing is written to the console. *)
Theorem release_frames_frees_run k p h :
  pool_wf p -> owner (pools k) h = Some p -> get_state p (mem k) h = HoS ->
  exists b,
    h < b <= base_frame_no p + n_frames p /\
    (forall g, h < g < b -> get_state p (mem k) g = Used) /\
    (b = base_frame_no p + n_frames p \/ get_state p (mem k) b <> Used) /\
    (forall g, h <= g < b -> get_state p (mem (release_frames k h)) g = Free) /\
    (forall g, in_range p g -> g < h \/ b <= g ->
       get_state p (mem (release_frames k h)) g = get_state p (mem k) g) /\
    (forall a, a < bitmap p \/ bitmap p + (2 * n_frames p + 7) / 8 <= a ->
       mem (release_frames k h) a = mem k a) /\
    pools (release_frames k h) = pools k /\
    console (release_frames k h) = console k.
Proof.
  intros Hwf Hown Hh.
  destruct (owner_In _ _ _ Hown) as [_ Hin]. apply owns_in_range in Hin; auto.
  rewrite release_frames_eq, release_frames_in_owner, Hown. cbn [mem pools console].
  destruct (release_in_pool_head p Hwf (mem k) h Hin Hh) as (b & Hout & Hrel).
  rewrite Hout. cbn [fst snd]. rewrite Hout in Hrel. cbn [fst] in Hrel.
  destruct Hrel as (H1 & H2 & H3 & H4 & H5 & H6).
  exists b. rewrite app_nil_r. auto 10.
Qed.

(** C4.  When [f] lies in the range of no registered pool, or the pool
    the registry resolves [f] to does not hold it as [HoS],
    [release_frames f] writes one error line to the console, the line of
    the case at hand, and changes neither the memory nor the registry. *)
Theorem release_frames_error k f :
  (forall p, In p (pools k) -> owns p f = false) \/
  (exists p, owner (pools k) f = Some p /\ get_state p (mem k) f <> HoS) ->
  mem (release_frames k f) = mem k /\
  pools (release_frames k f) = pools k /\
  console (release_frames k f) =
    console k ++ [match owner (pools k) f with
                  | None => msg_no_pool
                  | Some _ => msg_not_head
                  end].
Proof.
  intros H. rewrite release_frames_eq, release_frames_in_owner.
  cbn [mem pools console].
  destruct H as [H|(p & Hown & Hst)].
  - apply owner_None in H. rewrite H. cbn [fst snd]. auto.
  - rewrite Hown. unfold release_in_pool. cbv zeta.
    destruct (Z.eqb_spec (get_state p (mem k) f) HoS) as [E|E]; [contradiction|].
    cbn [negb fst snd]. auto.
Qed.

(** ** mark_inaccessible and the marks of the constructor *)

(** C7 (on the code).  [mark_inaccessible p b c] on frames of the pool
    sets every one of them to [Used], the first included: frame [b] does
    not become [HoS]. *)
Theorem mark_inaccessible_marks_used p m b c :
  pool_wf p -> base_frame_no p <= b -> 1 <= c ->
  b + c <= base_frame_no p + n_frames p ->
  (forall f, b <= f < b + c -> get_state p (mark_inaccessible p m b c) f = Used) /\
  get_state p (mark_inaccessible p m b c) b <> HoS.
Proof.
  intros Hwf Hb Hc He. pose proof Hwf as (H0 & H1 & H2 & H3).
  assert (Hall : forall f, b <= f < b + c ->
            get_state p (mark_inaccessible p m b c) f = Used).
  { intros f Hf. unfold mark_inaccessible, for_range. cbv zeta.
    rewrite wrap_small by lia.
    apply (for_loop_set_hit p (fun x => x) Used Hwf Used_bits); [|lia].
    intros i Hi. unfold in_range. lia. }
  split; [exact Hall|].
  rewrite Hall by lia. destruct FrameState_ok as (_ & _ & Hne). exact Hne.
Qed.

(** C6 (on the code).  On the self-hosted path the constructor writes
    [Used], not [HoS], for every metadata frame, the first included, and
    the zeroing of the bitmap that follows turns those slots back to
    [Free].  The slots are read through the pool object as it was while
    the marks were written, before [base_frame_no] and [n_frames] were
    moved. *)
Theorem constructor_metadata_marks k0 base count p k' :
  range_ok base count ->
  construct base count 0 k0 = Some (p, k') ->
  let p0 := mkPool base count 0 (bitmap_size p) (bitmap p) in
  let m1 := snd (init_pool base count 0 (mem k0)) in
  forall f, base <= f < base + needed_info_frames count ->
    get_state p0 m1 f = Used /\
    get_state p0 m1 f <> HoS /\
    get_state p0 (mem k') f = Free.
Proof.
  intros Hok Hc. cbv zeta.
  destruct (construct_pool _ _ _ _ _ _ Hc) as (Hp & Hm & _ & _).
  pose proof (init_pool_fields base count 0 (mem k0) Hok) as Hf.
  cbv zeta in Hf. rewrite <- Hp in Hf. destruct Hf as (Hsz & _ & _ & _).
  destruct Hok as (Hb & Hcnt & He & H2).
  pose proof (needed_info_frames_le count Hcnt H2) as Hk.
  set (p0 := mkPool base count 0 (bitmap_size p) (bitmap p)).
  assert (Hwf0 : pool_wf p0).
  { unfold pool_wf, p0. cbn [base_frame_no n_frames]. lia. }
  assert (Hm1 : snd (init_pool base count 0 (mem k0)) =
                mark_info_frames p0 (needed_info_frames count) (mem k0)).
  { unfold p0. rewrite Hp. reflexivity. }
  intros f Hf.
  assert (Hused : get_state p0 (snd (init_pool base count 0 (mem k0))) f = Used).
  { rewrite Hm1. unfold mark_info_frames, for_range.
    pose proof (for_loop_set_hit p0 (fun i => wrap (base + i)) Used
                  Hwf0 Used_bits (Z.to_nat (needed_info_frames count - 0)) 0
                  (mem k0) (f - base)) as H.
    cbv beta in H.
    rewrite (wrap_small (base + (f - base))) in H by lia.
    replace (base + (f - base)) with f in H by lia.
    apply H; [|lia].
    intros i Hi. rewrite wrap_small by lia.
    unfold in_range, p0. cbn [base_frame_no n_frames]. lia. }
  split; [exact Hused|]. split.
  - rewrite Hused. destruct FrameState_ok as (_ & _ & Hne). exact Hne.
  - rewrite Hm. change (zero_bitmap p) with (zero_bitmap p0).
    apply zeroed_free; auto.
    + unfold p0. cbn [bitmap_size n_frames]. rewrite Hsz. lia.
    + unfold in_range, p0. cbn [base_frame_no n_frames]. lia.
Qed.

(** ** Release followed by the same request *)

(** A free window with no free window below it is the one the scan
    returns. *)
Lemma first_fit_unique p m n s :
  pool_wf p -> 1 <= n < 2 ^ W ->
  base_frame_no p <= s -> s + n <= base_frame_no p + n_frames p ->
  free_run p m s n ->
  (forall g, base_frame_no p <= g < s -> ~ free_run p m g n) ->
  snd (get_frames_result p m n) = Some s.
Proof.
  intros Hwf Hn Hlo Hhi Hfree Hmin.
  pose proof (get_frames_result_spec p m n Hwf Hn) as Hspec.
  destruct (get_frames_result p m n) as [m1 [s'|]]; cbn [snd].
  - destruct Hspec as (_ & Hlo' & Hhi' & Hfree' & Hblk').
    destruct (Z.lt_trichotomy s' s) as [Hlt|[->|Hgt]]; [|reflexivity|].
    + exfalso. apply (Hmin s'); [lia|exact Hfree'].
    + exfalso. eapply blocked_not_free; [apply (Hblk' s); lia|exact Hfree].
  - destruct Hspec as (_ & Hblk).
    exfalso. eapply blocked_not_free; [apply (Hblk s); lia|exact Hfree].
Qed.

Lemma release_after_get p ps m n m1 f :
  pool_wf p -> 1 <= n < 2 ^ W -> owner ps f = Some p ->
  get_frames_result p m n = (m1, Some f) ->
  snd (release_frames_in ps m1 f) = [] /\
  snd (get_frames_result p (fst (release_frames_in ps m1 f)) n) = Some f.
Proof.
  intros Hwf Hn Hown Hget.
  pose proof (get_frames_result_spec p m n Hwf Hn) as Hspec.
  rewrite Hget in Hspec. destruct Hspec as (-> & Hlo & Hhi & Hfree & Hblk).
  pose proof Hwf as (H0 & H1 & H2 & H3).
  assert (Hn1 : 1 <= n) by lia.
  assert (Hin : in_range p f) by (unfold in_range; lia).
  pose proof (mark_run_head p m f n Hwf Hn1 Hlo Hhi) as Hhead.
  destruct (release_in_pool_head p Hwf _ f Hin Hhead) as (b & Hout & Hrel).
  rewrite release_frames_in_owner, Hown.
  rewrite Hout. cbn [fst snd]. rewrite Hout in Hrel. cbn [fst] in Hrel.
  split; [reflexivity|].
  set (m2 := fst (release_in_pool p (mark_run p m f n) f)) in *.
  destruct Hrel as (Hb1 & Hb2 & Hb3 & Hb4 & Hb5 & _).
  assert (Hb : f + n <= b).
  { destruct (Z.lt_ge_cases b (f + n)) as [Hlt|]; [exfalso|assumption].
    destruct Hb3 as [Hb3|Hb3]; [lia|].
    apply Hb3. apply mark_run_tail; auto. lia. }
  apply first_fit_unique; auto.
  - intros x Hx. apply Hb4. lia.
  - intros g Hg Hfree2.
    destruct (Hblk g Hg) as (x & Hx1 & Hx2 & Hx3).
    apply Hx3. rewrite <- (mark_run_other p m f n Hwf Hn1 Hlo Hhi x);
      [|unfold in_range; lia|lia].
    rewrite <- Hb5; [|unfold in_range; lia|lia].
    apply Hfree2. lia.
Qed.

(** C8.  If [get_frames p n] succeeds and returns [f], then
    [release_frames f] followed by [get_frames p n], with nothing in
    between, succeeds and returns [f] again; the release reports no
    error. *)
Theorem release_then_get_frames_same k p n m1 f :
  pool_wf p -> 0 <= n < 2 ^ W -> owner (pools k) f = Some p ->
  get_frames_result p (mem k) n = (m1, Some f) ->
  let k2 := release_frames (mkKernel m1 (pools k) (console k)) f in
  snd (get_frames_result p (mem k2) n) = Some f /\
  snd (get_frames p (mem k2) n) = f /\
  console k2 = console k.
Proof.
  intros Hwf Hn Hown Hget. cbv zeta.
  assert (Hn1 : 1 <= n < 2 ^ W).
  { destruct (Z.eq_dec n 0) as [->|]; [|lia].
    unfold get_frames_result in Hget. cbn in Hget. discriminate. }
  destruct (release_after_get p (pools k) (mem k) n m1 f Hwf Hn1 Hown Hget)
    as [Hout Hres].
  rewrite release_frames_eq. cbn [mem pools console].
  rewrite Hout, app_nil_r. split; [exact Hres|]. split; [|reflexivity].
  rewrite get_frames_eq. cbn [snd]. rewrite Hres. reflexivity.
Qed.

(** ** Run integrity along the calls of a client *)

Lemma covered_true live g :
  covered live g = true <-> exists h n, In (h, n) live /\ h <= g < h + n.
Proof.
  unfold covered. rewrite existsb_exists. split.
  - intros ([h n] & Hin & H). cbn [fst snd] in H.
    apply andb_true_iff in H. destruct H as [H1 H2].
    apply Z.leb_le in H1. apply Z.ltb_lt in H2. exists h, n. auto.
  - intros (h & n & Hin & H). exists (h, n). split; [exact Hin|].
    cbn [fst snd]. apply andb_true_iff. rewrite Z.leb_le, Z.ltb_lt. lia.
Qed.

Lemma In_filter_head live first h n :
  In (h, n) (filter (fun r : Z * Z => negb (fst r =? first)) live) <->
  In (h, n) live /\ h <> first.
Proof.
  rewrite filter_In. cbn [fst]. rewrite negb_true_iff, Z.eqb_neq. reflexivity.
Qed.

Section RunsOk.

Variable p : ContFramePool.
Hypothesis p_wf : pool_wf p.

Lemma Used_not_Free : Used <> Free.
Proof. destruct FrameState_ok as (H & _ & _). unfold Free. lia. Qed.

Lemma HoS_not_Free : HoS <> Free.
Proof. destruct FrameState_ok as (_ & H & _). unfold Free. lia. Qed.

Lemma Used_not_HoS : Used <> HoS.
Proof. destruct FrameState_ok as (_ & _ & H). exact H. Qed.

(** A frame of a run held is not free. *)
Lemma run_frame_not_free m live h n g :
  runs_ok p m live -> In (h, n) live -> h <= g < h + n ->
  get_state p m g <> Free.
Proof.
  intros (Ha & _ & _) Hin Hg. destruct (Ha h n Hin) as (_ & _ & _ & Hh & Ht).
  destruct (Z.eq_dec g h) as [->|Hne].
  - rewrite Hh. apply HoS_not_Free.
  - rewrite Ht by lia. apply Used_not_Free.
Qed.

(** A frame in state [HoS] heads a run held. *)
Lemma head_of_run m live f :
  runs_ok p m live -> in_range p f -> get_state p m f = HoS ->
  exists n, In (f, n) live.
Proof.
  intros Hok Hf Hs. pose proof Hok as (Ha & Hb & _).
  destruct (covered live f) eqn:Hc.
  - apply covered_true in Hc. destruct Hc as (h & n & Hin & Hg).
    destruct (Z.eq_dec h f) as [->|Hne]; [eauto|].
    destruct (Ha h n Hin) as (_ & _ & _ & _ & Ht).
    rewrite Ht in Hs by lia. exfalso. exact (Used_not_HoS Hs).
  - rewrite (Hb f Hf Hc) in Hs. exfalso. apply HoS_not_Free. auto.
Qed.

(** Runs held with different first frames share no frame. *)
Lemma runs_disjoint m live h1 n1 h2 n2 g :
  runs_ok p m live -> In (h1, n1) live -> In (h2, n2) live -> h1 <> h2 ->
  h1 <= g < h1 + n1 -> h2 <= g < h2 + n2 -> False.
Proof.
  intros (Ha & _ & _) Hin1 Hin2 Hne Hg1 Hg2.
  destruct (Ha h1 n1 Hin1) as (_ & _ & _ & Hh1 & Ht1).
  destruct (Ha h2 n2 Hin2) as (_ & _ & _ & Hh2 & Ht2).
  destruct (Z.lt_ge_cases h1 h2).
  - rewrite Ht1 in Hh2 by lia. exact (Used_not_HoS Hh2).
  - rewrite Ht2 in Hh1 by lia. exact (Used_not_HoS Hh1).
Qed.

Lemma runs_ok_get m live n :
  runs_ok p m live -> 0 <= n < 2 ^ W ->
  runs_ok p (fst (get_frames_result p m n))
    (match snd (get_frames_result p m n) with
     | Some start => (start, n) :: live
     | None => live
     end).
Proof.
  intros Hok Hn.
  destruct (Z.eq_dec n 0) as [->|Hn0].
  { unfold get_frames_result. cbn. exact Hok. }
  assert (Hn1 : 1 <= n < 2 ^ W) by lia.
  pose proof (get_frames_result_spec p m n p_wf Hn1) as Hspec.
  destruct (get_frames_result p m n) as [m1 [s|]]; cbn [fst snd];
    [|destruct Hspec as (-> & _); exact Hok].
  destruct Hspec as (-> & Hlo & Hhi & Hfree & _).
  assert (Hn' : 1 <= n) by lia.
  assert (Hout : forall h n0 g, In (h, n0) live -> h <= g < h + n0 ->
                   g < s \/ s + n <= g).
  { intros h n0 g Hin Hg.
    destruct (Z.lt_ge_cases g s); [auto|].
    destruct (Z.lt_ge_cases g (s + n)); [exfalso|auto].
    apply (run_frame_not_free m live h n0 g Hok Hin Hg). apply Hfree. lia. }
  pose proof Hok as (Ha & Hb & Hc).
  split; [|split].
  - intros h n0 [[= <- <-]|Hin].
    + split; [lia|]. split; [lia|]. split; [lia|].
      split; [apply mark_run_head; auto|].
      intros g Hg. apply mark_run_tail; auto.
    + destruct (Ha h n0 Hin) as (H1 & H2 & H3 & Hh & Ht).
      split; [lia|]. split; [lia|]. split; [lia|]. split.
      * rewrite mark_run_other; auto; [unfold in_range; lia|].
        apply (Hout h n0); [exact Hin|lia].
      * intros g Hg. rewrite mark_run_other; auto; [unfold in_range; lia|].
        apply (Hout h n0); [exact Hin|lia].
  - intros g Hg Hcov. cbn [covered existsb fst snd] in Hcov.
    apply orb_false_iff in Hcov. destruct Hcov as [Hs Hcov].
    rewrite mark_run_other; auto.
    apply andb_false_iff in Hs. rewrite Z.leb_gt, Z.ltb_ge in Hs. lia.
  - assert (Hnew : forall n0, In (s, n0) live -> False).
    { intros n0 Hin. destruct (Ha s n0 Hin) as (H1 & _).
      apply (run_frame_not_free m live s n0 s Hok Hin); [lia|].
      apply Hfree. lia. }
    intros h n0 n0' [E|Hin] [E'|Hin'].
    + congruence.
    + injection E as <- <-. exfalso. eapply Hnew. exact Hin'.
    + injection E' as <- <-. exfalso. eapply Hnew. exact Hin.
    + eapply Hc; eauto.
Qed.

(** The run [release_frames] frees is the run held that [first] heads. *)
Lemma released_run m m' live first n0 b :
  runs_ok p m live -> In (first, n0) live -> released p m m' first b ->
  b = first + n0.
Proof.
  intros Hok Hin (Hb1 & Hb2 & Hb3 & _).
  pose proof Hok as (Ha & Hb & Hc).
  destruct (Ha first n0 Hin) as (Hn0 & Hlo & Hhi & Hh & Ht).
  destruct (Z.lt_trichotomy b (first + n0)) as [Hlt|[Heq|Hgt]]; [exfalso|exact Heq|exfalso].
  - destruct Hb3 as [Hb3|Hb3]; [lia|]. apply Hb3, Ht. lia.
  - assert (Hx : get_state p m (first + n0) = Used) by (apply Hb2; lia).
    destruct (covered live (first + n0)) eqn:Hcov.
    + apply covered_true in Hcov. destruct Hcov as (h2 & n2 & Hin2 & Hg2).
      destruct (Z.eq_dec h2 first) as [->|Hne].
      * rewrite (Hc first n2 n0 Hin2 Hin) in Hg2. lia.
      * destruct (Ha h2 n2 Hin2) as (_ & _ & _ & Hh2 & Ht2).
        destruct (Z.eq_dec h2 (first + n0)) as [->|Hne2].
        { rewrite Hh2 in Hx. apply Used_not_HoS. auto. }
        destruct (Z.lt_ge_cases first h2).
        -- rewrite Ht in Hh2 by lia. exact (Used_not_HoS Hh2).
        -- rewrite Ht2 in Hh by lia. exact (Used_not_HoS Hh).
    + rewrite Hb in Hx; [|unfold in_range; lia|exact Hcov].
      apply Used_not_Free. auto.
Qed.

(** Releasing a frame that heads no run held leaves the runs as they
    are. *)
Lemma runs_ok_filter m live first :
  (forall n0, ~ In (first, n0) live) -> runs_ok p m live ->
  runs_ok p m (filter (fun r : Z * Z => negb (fst r =? first)) live).
Proof.
  intros Hno (Ha & Hb & Hc). split; [|split].
  - intros h n Hin. apply In_filter_head in Hin. apply Ha. tauto.
  - intros g Hg Hcov. apply Hb; [exact Hg|].
    destruct (covered live g) eqn:E; [|reflexivity].
    apply covered_true in E. destruct E as (h & n & Hin & Hgh).
    assert (h <> first) by (intros ->; exact (Hno n Hin)).
    rewrite <- Hcov. symmetry. apply covered_true. exists h, n.
    split; [apply In_filter_head; auto|exact Hgh].
  - intros h n n' Hin Hin'. apply In_filter_head in Hin, Hin'.
    eapply Hc; [apply Hin|apply Hin'].
Qed.

(** The states of the frames of [p] are read from the bytes of its
    bitmap. *)
Lemma runs_ok_ext m m' live :
  (forall a, bitmap p <= a < bitmap p + (2 * n_frames p + 7) / 8 -> m' a = m a) ->
  runs_ok p m live -> runs_ok p m' live.
Proof.
  intros Hext (Ha & Hb & Hc).
  assert (Hst : forall g, in_range p g -> get_state p m' g = get_state p m g).
  { intros g Hg. rewrite !get_state_slot by auto.
    pose proof (slot_byte_range p g (proj1 (proj2 p_wf)) Hg).
    rewrite Hext by lia. reflexivity. }
  split; [|split; [|exact Hc]].
  - intros h n Hin. destruct (Ha h n Hin) as (H1 & H2 & H3 & Hh & Ht).
    split; [lia|]. split; [lia|]. split; [lia|]. split.
    + rewrite Hst; [exact Hh|unfold in_range; lia].
    + intros g Hg. rewrite Hst; [apply Ht; lia|unfold in_range; lia].
  - intros g Hg Hcov. rewrite Hst by exact Hg. apply Hb; assumption.
Qed.

Lemma runs_ok_release_own m live first :
  runs_ok p m live ->
  runs_ok p (fst (release_frames_in [p] m first))
            (filter (fun r : Z * Z => negb (fst r =? first)) live).
Proof.
  intros Hok. pose proof Hok as (Ha & Hb & Hc).
  cbn [release_frames_in].
  destruct (owns p first) eqn:Hown; cbn [fst].
  2:{ apply runs_ok_filter; [|exact Hok]. intros n0 Hin.
      destruct (Ha first n0 Hin) as (? & ? & ? & _).
      assert (owns p first = true); [|congruence].
      apply owns_in_range; auto. unfold in_range. lia. }
  apply owns_in_range in Hown; auto.
  destruct (Z.eq_dec (get_state p m first) HoS) as [Hh|Hh].
  2:{ unfold release_in_pool. cbv zeta.
      destruct (Z.eqb_spec (get_state p m first) HoS); [contradiction|].
      cbn [negb fst]. apply runs_ok_filter; [|exact Hok]. intros n0 Hin.
      destruct (Ha first n0 Hin) as (_ & _ & _ & Hs & _). contradiction. }
  destruct (head_of_run m live first Hok Hown Hh) as (n0 & Hin0).
  destruct (release_in_pool_head p p_wf m first Hown Hh) as (b & _ & Hrel).
  pose proof (released_run _ _ _ _ _ _ Hok Hin0 Hrel) as ->.
  destruct Hrel as (Hb1 & Hb2 & Hb3 & Hb4 & Hb5 & _).
  set (m' := fst (release_in_pool p m first)) in *.
  split; [|split].
  - intros h n Hin. apply In_filter_head in Hin. destruct Hin as [Hin Hne].
    destruct (Ha h n Hin) as (H1 & H2 & H3 & Hs & Ht).
    assert (Hout : forall g, h <= g < h + n -> g < first \/ first + n0 <= g).
    { intros g Hg. destruct (Z.lt_ge_cases g first); [auto|].
      destruct (Z.lt_ge_cases g (first + n0)); [exfalso|auto].
      apply (runs_disjoint m live h n first n0 g); auto. }
    split; [lia|]. split; [lia|]. split; [lia|]. split.
    + rewrite Hb5; [exact Hs|unfold in_range; lia|apply Hout; lia].
    + intros g Hg. rewrite Hb5; [apply Ht; lia|unfold in_range; lia|apply Hout; lia].
  - intros g Hg Hcov.
    destruct (Z.lt_ge_cases g first) as [Hlt|Hge];
      [|destruct (Z.lt_ge_cases g (first + n0)) as [Hlt'|Hge']].
    2:{ apply Hb4. lia. }
    all: rewrite Hb5; [|exact Hg|lia]; apply Hb; [exact Hg|];
      destruct (covered live g) eqn:E; [|reflexivity];
      apply covered_true in E; destruct E as (h & n & Hin & Hgh);
      destruct (Z.eq_dec h first) as [->|Hne];
      [rewrite (Hc first n n0 Hin Hin0) in Hgh; lia|];
      rewrite <- Hcov; symmetry; apply covered_true; exists h, n;
      (split; [apply In_filter_head; auto|exact Hgh]).
  - intros h n n' Hin Hin'. apply In_filter_head in Hin, Hin'.
    eapply Hc; [apply Hin|apply Hin'].
Qed.

(** *** Calls that reach another pool *)

Variable others : list ContFramePool.
Hypothesis others_ok : forall q, In q others -> pool_wf q /\ separate p q.

Lemma other_pool_bytes q a :
  In q others ->
  bitmap p <= a < bitmap p + (2 * n_frames p + 7) / 8 ->
  a < bitmap q \/ bitmap q + (2 * n_frames q + 7) / 8 <= a.
Proof.
  intros Hq Ha. destruct (others_ok q Hq) as (_ & _ & Hsep). lia.
Qed.

Lemma runs_ok_get_other m live q n :
  In q others -> 0 <= n < 2 ^ W ->
  runs_ok p m live -> runs_ok p (fst (get_frames q m n)) live.
Proof.
  intros Hq Hn Hok. destruct (others_ok q Hq) as (Hwfq & _).
  rewrite get_frames_eq. cbn [fst].
  destruct (Z.eq_dec n 0) as [->|Hn0].
  { unfold get_frames_result. cbn. exact Hok. }
  assert (Hn1 : 1 <= n < 2 ^ W) by lia.
  pose proof (get_frames_result_spec q m n Hwfq Hn1) as Hspec.
  destruct (get_frames_result q m n) as [m1 [s|]]; cbn [fst];
    [|destruct Hspec as (-> & _); exact Hok].
  destruct Hspec as (-> & Hlo & Hhi & _).
  apply (runs_ok_ext m); [|exact Hok].
  intros a Ha. apply mark_run_frame; auto; [lia|].
  apply other_pool_bytes; assumption.
Qed.

Lemma release_in_pool_frame q m first a :
  pool_wf q -> in_range q first ->
  a < bitmap q \/ bitmap q + (2 * n_frames q + 7) / 8 <= a ->
  fst (release_in_pool q m first) a = m a.
Proof.
  intros Hwfq Hin Ha.
  destruct (Z.eq_dec (get_state q m first) HoS) as [Hh|Hh].
  - destruct (release_in_pool_head q Hwfq m first Hin Hh) as (b & _ & Hrel).
    destruct Hrel as (_ & _ & _ & _ & _ & H6). apply H6, Ha.
  - unfold release_in_pool. cbv zeta.
    destruct (Z.eqb_spec (get_state q m first) HoS); [contradiction|].
    reflexivity.
Qed.

Lemma release_frames_in_app ps1 ps2 m first :
  release_frames_in (ps1 ++ ps2) m first =
  match owner ps1 first with
  | Some q => release_in_pool q m first
  | None => release_frames_in ps2 m first
  end.
Proof.
  induction ps1 as [|q ps1 IH]; cbn [app release_frames_in owner]; [reflexivity|].
  destruct (owns q first); [reflexivity|exact IH].
Qed.

Lemma runs_ok_release m live first :
  runs_ok p m live ->
  runs_ok p (fst (release_frames_in (others ++ [p]) m first))
            (filter (fun r : Z * Z => negb (fst r =? first)) live).
Proof.
  intros Hok. rewrite release_frames_in_app.
  destruct (owner others first) as [q|] eqn:Hown;
    [|apply runs_ok_release_own; exact Hok].
  destruct (owner_In _ _ _ Hown) as [Hq Hin].
  destruct (others_ok q Hq) as (Hwfq & Hsep & _).
  apply owns_in_range in Hin; auto.
  apply runs_ok_filter.
  - intros n0 Hin0. destruct Hok as (Ha & _ & _).
    destruct (Ha first n0 Hin0) as (? & ? & ? & _).
    apply (Hsep first); [unfold in_range; lia|exact Hin].
  - apply (runs_ok_ext m); [|exact Hok].
    intros a Ha. apply release_in_pool_frame; auto.
    apply other_pool_bytes; assumption.
Qed.

End RunsOk.

Lemma do_call_get p k live n :
  do_call p (k, live) (Get n) =
  (mkKernel (fst (get_frames_result p (mem k) n)) (pools k) (console k),
   match snd (get_frames_result p (mem k) n) with
   | Some start => (start, n) :: live
   | None => live
   end).
Proof. cbn [do_call]. destruct (get_frames_result p (mem k) n). reflexivity. Qed.

Lemma do_calls_runs_ok p others cs : forall k live,
  pool_wf p -> (forall q, In q others -> pool_wf q /\ separate p q) ->
  pools k = others ++ [p] -> runs_ok p (mem k) live ->
  Forall (call_ok others) cs ->
  runs_ok p (mem (fst (do_calls p (k, live) cs))) (snd (do_calls p (k, live) cs)).
Proof.
  induction cs as [|c cs IH]; intros k live Hwf Hothers Hps Hok Hcs; [exact Hok|].
  inversion Hcs as [|c' cs' Hc Hcs']; subst.
  unfold do_calls. cbn [fold_left]. fold (do_calls p).
  destruct c as [n|q n|first].
  - rewrite do_call_get. apply IH; auto.
    cbn [mem]. apply runs_ok_get; auto.
  - cbn [do_call]. destruct Hc as [Hq Hn]. apply IH; auto.
    cbn [mem]. apply (runs_ok_get_other p Hwf others); auto.
  - cbn [do_call]. apply IH; auto.
    + rewrite release_frames_eq. exact Hps.
    + rewrite release_frames_eq. cbn [mem]. rewrite Hps.
      apply runs_ok_release; auto.
Qed.

(** C1.  A pool [p] is constructed; the pools registered before it are
    well formed and share neither frames nor bitmap bytes with it.  The
    kernel then makes any finite sequence of [get_frames] and
    [release_frames] calls.  Every run held in [p] at the end lies in its
    usable range; the first frame of the run is its only frame in state
    [HoS]; its other frames are [Used]; none of its frames is [Free].  The
    frames of the usable range outside those runs are [Free]. *)
Theorem run_integrity base count info k0 p k1 cs :
  range_ok base count ->
  construct base count info k0 = Some (p, k1) ->
  (forall q, In q (pools k0) -> pool_wf q /\ separate p q) ->
  Forall (call_ok (pools k0)) cs ->
  let k := fst (do_calls p (k1, []) cs) in
  let live := snd (do_calls p (k1, []) cs) in
  (forall h n, In (h, n) live ->
     in_range p h /\ h + n <= base_frame_no p + n_frames p /\
     (forall g, h <= g < h + n -> (get_state p (mem k) g = HoS <-> g = h)) /\
     (forall g, h < g < h + n -> get_state p (mem k) g = Used) /\
     (forall g, h <= g < h + n -> get_state p (mem k) g <> Free)) /\
  (forall g, in_range p g -> covered live g = false -> get_state p (mem k) g = Free).
Proof.
  intros Hok Hc Hothers Hcs. cbv zeta.
  assert (Hlen : Z.of_nat (List.length (pools k0)) < 2).
  { unfold construct in Hc. destruct (init_pool base count info (mem k0)).
    destruct (Z.ltb_spec (Z.of_nat (List.length (pools k0))) 2); [lia|discriminate]. }
  destruct (construct_spec base count info k0 Hok Hlen)
    as (p' & k' & Hc' & Hwf & Hps & Hfree).
  rewrite Hc in Hc'. injection Hc' as <- <-.
  assert (Hinit : runs_ok p (mem k1) []).
  { split; [|split].
    - intros h n [].
    - intros g Hg _. apply Hfree, Hg.
    - intros h n n' []. }
  pose proof (do_calls_runs_ok p (pools k0) cs k1 [] Hwf Hothers Hps Hinit Hcs) as Hruns.
  destruct Hruns as (Ha & Hb & _).
  split; [|exact Hb].
  intros h n Hin. destruct (Ha h n Hin) as (Hn & Hlo & Hhi & Hh & Ht).
  split; [unfold in_range; lia|]. split; [exact Hhi|].
  split; [|split; [exact Ht|]].
  - intros g Hg. split.
    + intros Hs. destruct (Z.eq_dec g h) as [|Hne]; [assumption|].
      rewrite Ht in Hs by lia. exfalso. exact (Used_not_HoS Hs).
    + intros ->. exact Hh.
  - intros g Hg. destruct (Z.eq_dec g h) as [->|Hne].
    + rewrite Hh. apply HoS_not_Free.
    + rewrite Ht by lia. apply Used_not_Free.
Qed.

(** What [get_frames] returns on a well-formed pool: the sentinel with
    the memory as it was, or a frame of the usable range. *)
Lemma get_frames_returns p m n m' r :
  pool_wf p -> 0 <= n < 2 ^ W -> get_frames p m n = (m', r) ->
  (snd (get_frames_result p m n) = None /\ r = 0 /\ m' = m) \/
  (snd (get_frames_result p m n) = Some r /\ in_range p r).
Proof.
  intros Hwf Hn Hget. rewrite get_frames_eq in Hget.
  destruct (Z.eq_dec n 0) as [->|Hn0].
  { unfold get_frames_result in *. cbn in *. injection Hget as <- <-. auto. }
  assert (Hn1 : 1 <= n < 2 ^ W) by lia.
  pose proof (get_frames_result_spec p m n Hwf Hn1) as Hspec.
  destruct (get_frames_result p m n) as [m1 [s|]]; cbn [fst snd] in *;
    injection Hget as <- <-.
  - right. destruct Hspec as (_ & Hlo & Hhi & _). unfold in_range. split; [reflexivity|lia].
  - left. destruct Hspec as (-> & _). auto.
Qed.

(** C9.  A pool is constructed self-hosted over [[base, base + count)].
    After any finite sequence of calls, what [get_frames] returns is
    either the sentinel 0 of a call that left through [return 0] and
    allocated nothing, or a frame at or above
    [base + needed_info_frames count]: no frame of the metadata range
    [[base, base + needed_info_frames count)] is handed out, and when
    [base] is not frame 0 the value returned is never in that range. *)
Theorem metadata_frames_never_returned base count k0 p k1 cs n m' r :
  range_ok base count ->
  construct base count 0 k0 = Some (p, k1) ->
  0 <= n < 2 ^ W ->
  get_frames p (mem (fst (do_calls p (k1, []) cs))) n = (m', r) ->
  ((snd (get_frames_result p (mem (fst (do_calls p (k1, []) cs))) n) = None /\
    r = 0 /\ m' = mem (fst (do_calls p (k1, []) cs))) \/
   (snd (get_frames_result p (mem (fst (do_calls p (k1, []) cs))) n) = Some r /\
    base + needed_info_frames count <= r < base + count)) /\
  (0 < base -> ~ (base <= r < base + needed_info_frames count)).
Proof.
  intros Hok Hc Hn Hget.
  destruct (construct_pool _ _ _ _ _ _ Hc) as (Hp & _).
  pose proof (init_pool_wf base count 0 (mem k0) Hok) as Hwf.
  pose proof (init_pool_fields base count 0 (mem k0) Hok) as Hf.
  cbv zeta in Hf. rewrite <- Hp in Hwf, Hf.
  destruct Hf as (_ & _ & H0 & _). destruct (H0 eq_refl) as (Hbase & Hcnt & _).
  destruct (get_frames_returns _ _ _ _ _ Hwf Hn Hget) as [H|[Hs Hin]].
  - split; [left; exact H|]. destruct H as (_ & -> & _). lia.
  - unfold in_range in Hin. split; [right; split; [exact Hs|lia]|lia].
Qed.

(** * Further properties of the allocator *)

(** ** The state map as an array of two-bit cells *)

(** X1.  On a well-formed pool, after [set_state f s] with a two-bit
    value [s], [get_state] reads [s] at [f] and what it read before at
    every other frame of the pool: the four frames packed in a byte do not
    disturb one another.  The write changes no byte but the one that holds
    the slot of [f]. *)
Theorem state_map_read_after_write p m f g s :
  pool_wf p -> in_range p f -> in_range p g -> 0 <= s < 4 ->
  get_state p (set_state p m f s) g = (if g =? f then s else get_state p m g) /\
  (forall a, a <> bitmap p + (f - base_frame_no p) / 4 ->
     set_state p m f s a = m a).
Proof.
  intros Hwf Hf Hg Hs. split.
  - destruct (Z.eqb_spec g f) as [->|Hne].
    + apply get_set_same; assumption.
    + apply get_set_other; auto.
  - intros a Ha. rewrite set_state_slot by assumption.
    unfold store, slot_byte.
    destruct (Z.eqb_spec a (bitmap p + (f - base_frame_no p) / 4)); [contradiction|].
    reflexivity.
Qed.

(** ** needed_info_frames *)

(** Without wrap-around [needed_info_frames] is the rounded-up quotient
    of the rounded-up byte count. *)
Lemma needed_info_frames_exact n :
  0 <= n -> 2 * n + 7 < 2 ^ W ->
  (2 * n + 7) / 8 + FRAME_SIZE - 1 < 2 ^ W ->
  needed_info_frames n = ((2 * n + 7) / 8 + FRAME_SIZE - 1) / FRAME_SIZE.
Proof.
  intros H0 H1 H2. pose proof FRAME_SIZE_pos as HFS. unfold frame_size_ok in HFS.
  unfold needed_info_frames. cbv zeta.
  rewrite bitmap_bytes by assumption.
  rewrite wrap_small; [reflexivity|].
  assert (0 <= (2 * n + 7) / 8) by (apply Z.div_pos; lia). lia.
Qed.

(** X2.  [needed_info_frames n] frames are enough for the state map of
    [n] frames and one frame fewer is not: with [k] the result, the
    [ceil(2n/8)] bytes of the map fit in [k * FRAME_SIZE] bytes and exceed
    [(k - 1) * FRAME_SIZE]; in particular no frame is needed for no
    frame. *)
Theorem needed_info_frames_fits n :
  0 <= n -> 2 * n + 7 < 2 ^ W ->
  (2 * n + 7) / 8 + FRAME_SIZE - 1 < 2 ^ W ->
  let k := needed_info_frames n in
  (2 * n + 7) / 8 <= k * FRAME_SIZE /\
  (k - 1) * FRAME_SIZE < (2 * n + 7) / 8 /\
  n <= 4 * FRAME_SIZE * k /\
  (n = 0 -> k = 0).
Proof.
  intros H0 H1 H2. cbv zeta.
  pose proof FRAME_SIZE_pos as HFS. unfold frame_size_ok in HFS.
  rewrite needed_info_frames_exact by assumption.
  set (bytes := (2 * n + 7) / 8).
  assert (Hbytes : 2 * n <= 8 * bytes /\ 0 <= bytes).
  { unfold bytes. Z.div_mod_to_equations. lia. }
  set (k := (bytes + FRAME_SIZE - 1) / FRAME_SIZE).
  pose proof (Z.div_mod (bytes + FRAME_SIZE - 1) FRAME_SIZE ltac:(lia)) as Hdm.
  pose proof (Z.mod_pos_bound (bytes + FRAME_SIZE - 1) FRAME_SIZE HFS) as Hmod.
  fold k in Hdm.
  assert (Hk1 : bytes <= k * FRAME_SIZE) by nia.
  assert (Hk2 : (k - 1) * FRAME_SIZE < bytes) by nia.
  split; [exact Hk1|]. split; [exact Hk2|]. split; [nia|].
  intros ->. assert (bytes = 0) by (unfold bytes; reflexivity).
  assert (0 <= k) by (apply Z.div_pos; lia). nia.
Qed.

(** X3.  The state map of a self-hosted pool lies in the frames carved
    off the front of its range: when the physical addresses of the range
    fit [unsigned long], every byte of the bitmap has its address in
    frames [[base, base_frame_no)], below the first frame the pool can
    hand out. *)
Theorem self_hosted_bitmap_in_metadata_frames base count k0 p k1 i :
  range_ok base count -> 1 <= count ->
  (base + count) * FRAME_SIZE < 2 ^ W ->
  construct base count 0 k0 = Some (p, k1) ->
  0 <= i < bitmap_size p ->
  base * FRAME_SIZE <= bitmap p + i < base_frame_no p * FRAME_SIZE.
Proof.
  intros Hok Hcount Haddr Hc Hi.
  pose proof FRAME_SIZE_pos as HFS. unfold frame_size_ok in HFS.
  destruct (construct_pool _ _ _ _ _ _ Hc) as (Hp & _).
  pose proof (init_pool_fields base count 0 (mem k0) Hok) as Hf.
  cbv zeta in Hf. rewrite <- Hp in Hf.
  destruct Hf as (Hsz & _ & H0 & _).
  destruct (H0 eq_refl) as (Hbase & _ & Hbm).
  destruct Hok as (Hb & Hcnt & He & H2).
  set (bytes := (2 * count + 7) / 8) in *.
  assert (Hbytes : 0 <= bytes <= count).
  { unfold bytes. Z.div_mod_to_equations. lia. }
  assert (Hnowrap : bytes + FRAME_SIZE - 1 < 2 ^ W) by nia.
  rewrite needed_info_frames_exact in Hbase by (fold bytes; lia).
  fold bytes in Hbase.
  set (k := (bytes + FRAME_SIZE - 1) / FRAME_SIZE) in *.
  pose proof (Z.div_mod (bytes + FRAME_SIZE - 1) FRAME_SIZE ltac:(lia)) as Hdm.
  pose proof (Z.mod_pos_bound (bytes + FRAME_SIZE - 1) FRAME_SIZE HFS) as Hmod.
  fold k in Hdm.
  assert (Hk : bytes <= k * FRAME_SIZE) by nia.
  rewrite Hbm, Hbase, wrap_small by nia.
  rewrite Hsz in Hi. nia.
Qed.

(** ** What get_frames leaves behind *)

(** X4.  When [get_frames p n] returns a frame [f] other than 0, frame
    [f] is [HoS] afterwards, frames [f+1 .. f+n-1] are [Used], every
    other frame of the pool has the state it had, and no byte outside the
    pool's bitmap has changed. *)
Theorem get_frames_marks_run p m n m' f :
  pool_wf p -> 1 <= n < 2 ^ W ->
  get_frames p m n = (m', f) -> f <> 0 ->
  get_state p m' f = HoS /\
  (forall g, f < g < f + n -> get_state p m' g = Used) /\
  (forall g, in_range p g -> g < f \/ f + n <= g ->
     get_state p m' g = get_state p m g) /\
  (forall a, a < bitmap p \/ bitmap p + (2 * n_frames p + 7) / 8 <= a ->
     m' a = m a).
Proof.
  intros Hwf Hn Hget Hf0.
  pose proof (get_frames_result_spec p m n Hwf Hn) as Hspec.
  rewrite get_frames_eq in Hget.
  destruct (get_frames_result p m n) as [m1 [s|]]; cbn [fst snd] in Hget;
    injection Hget as <- <-; [|congruence].
  destruct Hspec as (-> & Hlo & Hhi & _).
  assert (Hn1 : 1 <= n) by lia.
  split; [apply mark_run_head; auto|].
  split; [intros g Hg; apply mark_run_tail; auto|].
  split; [intros g Hg Hout; apply mark_run_other; auto|].
  intros a Ha. apply mark_run_frame; auto.
Qed.

(** X5.  On a pool that does not contain frame 0, a call of [get_frames]
    that returns 0 has changed nothing: a request that cannot be served
    leaves no partial marks. *)
Theorem get_frames_failure_no_effect p m n m' :
  pool_wf p -> 0 < base_frame_no p -> 0 <= n < 2 ^ W ->
  get_frames p m n = (m', 0) -> m' = m.
Proof.
  intros Hwf Hbase Hn Hget.
  destruct (get_frames_returns p m n m' 0 Hwf Hn Hget) as [(_ & _ & H)|[_ Hin]];
    [exact H|].
  unfold in_range in Hin. lia.
Qed.

(** X6.  A request for more frames than the pool has returns 0 and
    changes nothing, whatever the states of the frames. *)
Theorem get_frames_oversize p m n :
  pool_wf p -> n_frames p < n < 2 ^ W ->
  get_frames p m n = (m, 0).
Proof.
  intros Hwf Hn. pose proof Hwf as (H0 & H1 & _).
  assert (Hn1 : 1 <= n < 2 ^ W) by lia.
  pose proof (get_frames_result_spec p m n Hwf Hn1) as Hspec.
  rewrite get_frames_eq.
  destruct (get_frames_result p m n) as [m1 [s|]]; cbn [fst snd].
  - destruct Hspec as (_ & Hlo & Hhi & _). lia.
  - destruct Hspec as (-> & _). reflexivity.
Qed.

(** X7.  Two successful calls of [get_frames] in a row hand out runs
    that share no frame, and the second call leaves the marks of the first
    run in place. *)
Theorem successive_runs_disjoint p m n1 n2 m1 m2 f1 f2 :
  pool_wf p -> 0 <= n1 < 2 ^ W -> 0 <= n2 < 2 ^ W ->
  get_frames_result p m n1 = (m1, Some f1) ->
  get_frames_result p m1 n2 = (m2, Some f2) ->
  (f1 + n1 <= f2 \/ f2 + n2 <= f1) /\
  get_state p m2 f1 = HoS /\
  (forall g, f1 < g < f1 + n1 -> get_state p m2 g = Used).
Proof.
  intros Hwf Hn1 Hn2 Hget1 Hget2.
  assert (Hpos : forall n mm mm' f, 0 <= n < 2 ^ W ->
            get_frames_result p mm n = (mm', Some f) -> 1 <= n < 2 ^ W).
  { intros n mm mm' f Hn Hg. destruct (Z.eq_dec n 0) as [->|]; [|lia].
    unfold get_frames_result in Hg. cbn in Hg. discriminate. }
  pose proof (Hpos _ _ _ _ Hn1 Hget1) as Hn1'.
  pose proof (Hpos _ _ _ _ Hn2 Hget2) as Hn2'.
  pose proof (get_frames_result_spec p m n1 Hwf Hn1') as Hs1.
  rewrite Hget1 in Hs1. destruct Hs1 as (-> & Hlo1 & Hhi1 & _).
  pose proof (get_frames_result_spec p (mark_run p m f1 n1) n2 Hwf Hn2') as Hs2.
  rewrite Hget2 in Hs2. destruct Hs2 as (-> & Hlo2 & Hhi2 & Hfree2 & _).
  assert (Hp1 : 1 <= n1) by lia. assert (Hp2 : 1 <= n2) by lia.
  assert (Hnf : forall g, f1 <= g < f1 + n1 ->
                  get_state p (mark_run p m f1 n1) g <> Free).
  { intros g Hg. destruct (Z.eq_dec g f1) as [->|Hne].
    - rewrite mark_run_head by auto. apply HoS_not_Free.
    - rewrite mark_run_tail by (auto; lia). apply Used_not_Free. }
  assert (Hdis : f1 + n1 <= f2 \/ f2 + n2 <= f1).
  { destruct (Z.le_gt_cases (f1 + n1) f2); [auto|].
    destruct (Z.le_gt_cases (f2 + n2) f1); [auto|]. exfalso.
    apply (Hnf (Z.max f1 f2)); [lia|]. apply Hfree2. lia. }
  split; [exact Hdis|]. split.
  - rewrite mark_run_other; auto; [apply mark_run_head; auto|unfold in_range; lia|lia].
  - intros g Hg.
    rewrite mark_run_other; auto; [apply mark_run_tail; auto|unfold in_range; lia|lia].
Qed.

(** ** Releasing twice, and releasing what was just taken *)

Lemma release_in_pool_refused p m first :
  get_state p m first <> HoS -> release_in_pool p m first = (m, [msg_not_head]).
Proof.
  intros H. unfold release_in_pool. cbv zeta.
  destruct (Z.eqb_spec (get_state p m first) HoS); [contradiction|reflexivity].
Qed.

(** X8.  After [release_frames h] has freed the run that [h] heads, a
    second [release_frames h] is refused: it writes the
    not-head-of-sequence line and changes neither memory nor registry. *)
Theorem double_release_refused k p h :
  pool_wf p -> owner (pools k) h = Some p -> get_state p (mem k) h = HoS ->
  let k1 := release_frames k h in
  let k2 := release_frames k1 h in
  get_state p (mem k1) h = Free /\
  mem k2 = mem k1 /\ pools k2 = pools k /\
  console k2 = console k ++ [msg_not_head].
Proof.
  intros Hwf Hown Hh. cbv zeta.
  destruct (owner_In _ _ _ Hown) as [_ Hin]. apply owns_in_range in Hin; auto.
  destruct (release_in_pool_head p Hwf (mem k) h Hin Hh) as (b & Hout & Hrel).
  assert (Hk1 : release_frames k h =
                mkKernel (fst (release_in_pool p (mem k) h)) (pools k) (console k)).
  { rewrite release_frames_eq, release_frames_in_owner, Hown, Hout.
    cbn [fst snd]. rewrite app_nil_r. reflexivity. }
  rewrite Hk1. destruct Hrel as (Hb1 & _ & _ & Hb4 & _).
  set (m1 := fst (release_in_pool p (mem k) h)) in *.
  assert (Hfree : get_state p m1 h = Free) by (apply Hb4; lia).
  split; [exact Hfree|].
  rewrite release_frames_eq. cbn [mem pools console].
  rewrite release_frames_in_owner, Hown.
  rewrite release_in_pool_refused.
  - cbn [fst snd]. auto.
  - rewrite Hfree. intros E. apply HoS_not_Free. auto.
Qed.

(** X9.  Taking a run and releasing it at once puts every frame of the
    pool back in the state it had, provided the frame after the run is
    not a [Used] frame: such a frame, headless, would be freed with the
    run. *)
Theorem get_then_release_restores p ps m n m1 f g :
  pool_wf p -> 0 <= n < 2 ^ W -> owner ps f = Some p ->
  get_frames_result p m n = (m1, Some f) ->
  (f + n = base_frame_no p + n_frames p \/ get_state p m (f + n) <> Used) ->
  in_range p g ->
  get_state p (fst (release_frames_in ps m1 f)) g = get_state p m g.
Proof.
  intros Hwf Hn Hown Hget Hnext Hg.
  assert (Hn1 : 1 <= n < 2 ^ W).
  { destruct (Z.eq_dec n 0) as [->|]; [|lia].
    unfold get_frames_result in Hget. cbn in Hget. discriminate. }
  pose proof (get_frames_result_spec p m n Hwf Hn1) as Hspec.
  rewrite Hget in Hspec. destruct Hspec as (-> & Hlo & Hhi & Hfree & _).
  assert (Hp : 1 <= n) by lia.
  assert (Hin : in_range p f) by (unfold in_range; lia).
  pose proof (mark_run_head p m f n Hwf Hp Hlo Hhi) as Hhead.
  destruct (release_in_pool_head p Hwf _ f Hin Hhead) as (b & _ & Hrel).
  rewrite release_frames_in_owner, Hown.
  destruct Hrel as (Hb1 & Hb2 & Hb3 & Hb4 & Hb5 & _).
  assert (Hb : b = f + n).
  { destruct (Z.lt_trichotomy b (f + n)) as [Hlt|[Heq|Hgt]]; [exfalso|exact Heq|exfalso].
    - destruct Hb3 as [Hb3|Hb3]; [lia|]. apply Hb3. apply mark_run_tail; auto. lia.
    - destruct Hnext as [Hend|Hnu]; [lia|]. apply Hnu.
      rewrite <- (mark_run_other p m f n Hwf Hp Hlo Hhi (f + n));
        [apply Hb2; lia|unfold in_range; lia|lia]. }
  subst b. unfold in_range in Hg.
  destruct (Z.lt_ge_cases g f) as [Hlt|Hge];
    [|destruct (Z.lt_ge_cases g (f + n)) as [Hlt'|Hge']].
  - rewrite Hb5; [|unfold in_range; lia|lia].
    apply mark_run_other; auto; unfold in_range; lia.
  - rewrite Hb4 by lia. symmetry. apply Hfree. lia.
  - rewrite Hb5; [|unfold in_range; lia|lia].
    apply mark_run_other; auto; unfold in_range; lia.
Qed.

(** ** mark_inaccessible beyond the frames it marks *)

Lemma mark_inaccessible_loop p m b c :
  pool_wf p -> base_frame_no p <= b -> 0 <= c ->
  b + c <= base_frame_no p + n_frames p ->
  mark_inaccessible p m b c =
  for_loop (Z.to_nat c) b (fun f m => set_state p m f Used) m.
Proof.
  intros (H0 & H1 & H2 & H3) Hb Hc He.
  unfold mark_inaccessible, for_range. cbv zeta.
  rewrite wrap_small by lia. f_equal. f_equal. lia.
Qed.

(** X10.  [mark_inaccessible p b c] on frames of the pool changes the
    state of no frame of the pool outside [[b, b+c)] and no byte outside
    the pool's bitmap; with [c = 0] it changes nothing at all. *)
Theorem mark_inaccessible_elsewhere p m b c :
  pool_wf p -> base_frame_no p <= b -> 0 <= c ->
  b + c <= base_frame_no p + n_frames p ->
  (forall g, in_range p g -> g < b \/ b + c <= g ->
     get_state p (mark_inaccessible p m b c) g = get_state p m g) /\
  (forall a, a < bitmap p \/ bitmap p + (2 * n_frames p + 7) / 8 <= a ->
     mark_inaccessible p m b c a = m a) /\
  (c = 0 -> mark_inaccessible p m b c = m).
Proof.
  intros Hwf Hb Hc He. rewrite mark_inaccessible_loop by assumption.
  split; [|split].
  - intros g Hg Hout.
    apply (for_loop_set_miss p (fun x => x) Used Hwf Used_bits); [|exact Hg].
    intros i Hi. unfold in_range. lia.
  - intros a Ha.
    apply (for_loop_set_frame p (fun x => x) Used Hwf); [|exact Ha].
    intros i Hi. unfold in_range. lia.
  - intros ->. reflexivity.
Qed.

(** X11.  Frames marked by [mark_inaccessible p b c] cannot be released
    by their first frame: [release_frames b] is refused as not head of a
    sequence, and the frames stay [Used]. *)
Theorem release_after_mark_inaccessible_refused k p b c f :
  pool_wf p -> owner (pools k) b = Some p -> 1 <= c ->
  b + c <= base_frame_no p + n_frames p ->
  b <= f < b + c ->
  let m' := mark_inaccessible p (mem k) b c in
  let k' := release_frames (mkKernel m' (pools k) (console k)) b in
  mem k' = m' /\
  console k' = console k ++ [msg_not_head] /\
  get_state p (mem k') f = Used.
Proof.
  intros Hwf Hown Hc He Hf. cbv zeta.
  destruct (owner_In _ _ _ Hown) as [_ Hin]. apply owns_in_range in Hin; auto.
  unfold in_range in Hin.
  assert (Hall : forall x, b <= x < b + c ->
            get_state p (mark_inaccessible p (mem k) b c) x = Used).
  { intros x Hx. rewrite mark_inaccessible_loop by (auto; lia).
    apply (for_loop_set_hit p (fun y => y) Used Hwf Used_bits); [|lia].
    intros i Hi. unfold in_range. lia. }
  rewrite release_frames_eq. cbn [mem pools console].
  rewrite release_frames_in_owner, Hown.
  rewrite release_in_pool_refused.
  - cbn [fst snd]. split; [reflexivity|]. split; [reflexivity|]. apply Hall, Hf.
  - rewrite Hall by lia. apply Used_not_HoS.
Qed.

(** ** Pools side by side *)

(** The states of the frames of a pool are read from the bytes of its
    bitmap. *)
Lemma get_state_ext q m m' g :
  pool_wf q -> in_range q g ->
  (forall a, bitmap q <= a < bitmap q + (2 * n_frames q + 7) / 8 -> m' a = m a) ->
  get_state q m' g = get_state q m g.
Proof.
  intros Hwf Hg Hext. rewrite !get_state_slot by auto.
  pose proof (slot_byte_range q g (proj1 (proj2 Hwf)) Hg).
  rewrite Hext by lia. reflexivity.
Qed.

Lemma get_frames_outside p m n a :
  pool_wf p -> 0 <= n < 2 ^ W ->
  a < bitmap p \/ bitmap p + (2 * n_frames p + 7) / 8 <= a ->
  fst (get_frames p m n) a = m a.
Proof.
  intros Hwf Hn Ha. rewrite get_frames_eq. cbn [fst].
  destruct (Z.eq_dec n 0) as [->|Hn0].
  { unfold get_frames_result. cbn. reflexivity. }
  assert (Hn1 : 1 <= n < 2 ^ W) by lia.
  pose proof (get_frames_result_spec p m n Hwf Hn1) as Hspec.
  destruct (get_frames_result p m n) as [m1 [s|]]; cbn [fst].
  - destruct Hspec as (-> & Hlo & Hhi & _). apply mark_run_frame; auto. lia.
  - destruct Hspec as (-> & _). reflexivity.
Qed.

(** X12.  When the bitmaps of pools [p] and [q] do not overlap, neither
    [p.get_frames] nor a [release_frames] that the registry resolves to
    [p] changes the state of a frame of [q]. *)
Theorem other_pool_untouched p q ps m n first g :
  pool_wf p -> pool_wf q ->
  (bitmap q + (2 * n_frames q + 7) / 8 <= bitmap p \/
   bitmap p + (2 * n_frames p + 7) / 8 <= bitmap q) ->
  0 <= n < 2 ^ W -> owner ps first = Some p -> in_range q g ->
  get_state q (fst (get_frames p m n)) g = get_state q m g /\
  get_state q (fst (release_frames_in ps m first)) g = get_state q m g.
Proof.
  intros Hwfp Hwfq Hsep Hn Hown Hg.
  destruct (owner_In _ _ _ Hown) as [_ Hin]. apply owns_in_range in Hin; auto.
  split.
  - apply get_state_ext; auto. intros a Ha.
    apply get_frames_outside; auto. lia.
  - rewrite release_frames_in_owner, Hown.
    apply get_state_ext; auto. intros a Ha.
    apply release_in_pool_frame; auto. lia.
Qed.

(** X13.  The constructor writes inside the bitmap of the pool it builds
    and nowhere else; it appends the pool to the registry and one line to
    the console. *)
Theorem construct_touches_own_bitmap_only base count info k p k' a :
  range_ok base count ->
  construct base count info k = Some (p, k') ->
  a < bitmap p \/ bitmap p + bitmap_size p <= a ->
  mem k' a = mem k a /\
  pools k' = pools k ++ [p] /\
  console k' = console k ++ [msg_initialized].
Proof.
  intros Hok Hc Ha.
  destruct (construct_pool _ _ _ _ _ _ Hc) as (Hp & Hm & Hps & Hcon).
  split; [|auto].
  pose proof (init_pool_fields base count info (mem k) Hok) as Hf.
  cbv zeta in Hf. rewrite <- Hp in Hf. destruct Hf as (Hsz & _ & _ & _).
  destruct Hok as (Hb & Hcnt & He & H2).
  pose proof (needed_info_frames_le count Hcnt H2) as Hk.
  rewrite Hm, zero_bitmap_spec.
  replace ((bitmap p <=? a) && (a <? bitmap p + bitmap_size p)) with false.
  2:{ symmetry. apply andb_false_iff. rewrite Z.leb_gt, Z.ltb_ge. lia. }
  unfold init_pool in *. cbv zeta in *.
  rewrite bitmap_bytes in * by assumption.
  destruct (Z.eqb_spec info 0) as [Hi|Hi]; cbn [fst snd] in *; [|reflexivity].
  set (p0 := mkPool base count info ((2 * count + 7) / 8) (wrap (base * FRAME_SIZE))).
  assert (Hwf0 : pool_wf p0).
  { unfold pool_wf, p0. cbn [base_frame_no n_frames]. lia. }
  unfold mark_info_frames, for_range.
  apply (for_loop_set_frame p0 (fun i => wrap (base_frame_no p0 + i)) Used Hwf0).
  - intros i Hi'. unfold p0 at 2. cbn [base_frame_no].
    rewrite wrap_small by lia.
    unfold in_range, p0. cbn [base_frame_no n_frames]. lia.
  - subst p. unfold p0. cbn [bitmap bitmap_size n_frames] in *. lia.
Qed.

(** ** The first requests on a new pool *)

(** On a pool whose frames are all free the scan stops at the first
    frame. *)
Lemma all_free_first_fit p m n :
  pool_wf p -> 1 <= n <= n_frames p ->
  (forall f, in_range p f -> get_state p m f = Free) ->
  get_frames_result p m n = (mark_run p m (base_frame_no p) n, Some (base_frame_no p)).
Proof.
  intros Hwf Hn Hfree. pose proof Hwf as (H0 & H1 & H2 & H3).
  assert (Hn1 : 1 <= n < 2 ^ W) by lia.
  assert (Hres : snd (get_frames_result p m n) = Some (base_frame_no p)).
  { apply first_fit_unique; auto; try lia.
    intros x Hx. apply Hfree. unfold in_range. lia. }
  pose proof (get_frames_result_spec p m n Hwf Hn1) as Hspec.
  destruct (get_frames_result p m n) as [m1 [s|]]; cbn [snd] in Hres;
    [|discriminate].
  injection Hres as ->. destruct Hspec as (-> & _). reflexivity.
Qed.

Lemma construct_room base count info k p k' :
  construct base count info k = Some (p, k') ->
  Z.of_nat (List.length (pools k)) < 2.
Proof.
  unfold construct. destruct (init_pool base count info (mem k)).
  destruct (Z.ltb_spec (Z.of_nat (List.length (pools k))) 2); [lia|discriminate].
Qed.

(** X14.  On a pool just constructed, [get_frames n] succeeds for every
    [n] from 1 to the number of usable frames and returns the first usable
    frame, [base_frame_no]. *)
Theorem new_pool_first_run base count info k0 p k1 n :
  range_ok base count ->
  construct base count info k0 = Some (p, k1) ->
  1 <= n <= n_frames p ->
  snd (get_frames_result p (mem k1) n) = Some (base_frame_no p) /\
  snd (get_frames p (mem k1) n) = base_frame_no p.
Proof.
  intros Hok Hc Hn.
  destruct (construct_spec base count info k0 Hok (construct_room _ _ _ _ _ _ Hc))
    as (p' & k' & Hc' & Hwf & _ & Hfree).
  rewrite Hc in Hc'. injection Hc' as <- <-.
  pose proof (all_free_first_fit p (mem k1) n Hwf Hn Hfree) as Hres.
  rewrite get_frames_eq, Hres. cbn [fst snd]. auto.
Qed.

(** X15.  On a pool just constructed, two requests that fit together
    are served side by side: the second run starts where the first
    ends. *)
Theorem new_pool_second_run base count info k0 p k1 n1 n2 :
  range_ok base count ->
  construct base count info k0 = Some (p, k1) ->
  1 <= n1 -> 1 <= n2 -> n1 + n2 <= n_frames p ->
  let m1 := fst (get_frames p (mem k1) n1) in
  snd (get_frames_result p m1 n2) = Some (base_frame_no p + n1) /\
  snd (get_frames p m1 n2) = base_frame_no p + n1.
Proof.
  intros Hok Hc Hn1 Hn2 Hsum. cbv zeta.
  destruct (construct_spec base count info k0 Hok (construct_room _ _ _ _ _ _ Hc))
    as (p' & k' & Hc' & Hwf & _ & Hfree).
  rewrite Hc in Hc'. injection Hc' as <- <-.
  pose proof Hwf as (H0 & H1 & H2 & H3).
  rewrite (get_frames_eq p (mem k1) n1).
  rewrite (all_free_first_fit p (mem k1) n1 Hwf ltac:(lia) Hfree). cbn [fst].
  set (b0 := base_frame_no p) in *.
  assert (Hlo : b0 <= b0) by lia.
  assert (Hhi : b0 + n1 <= b0 + n_frames p) by lia.
  assert (Hres : snd (get_frames_result p (mark_run p (mem k1) b0 n1) n2)
                 = Some (b0 + n1)).
  { apply first_fit_unique; auto; try lia.
    - intros x Hx. rewrite mark_run_other; auto; [|unfold in_range; fold b0; lia|lia].
      apply Hfree. unfold in_range. fold b0. lia.
    - intros g Hg Hrun.
      assert (Hg' : get_state p (mark_run p (mem k1) b0 n1) g = Free)
        by (apply Hrun; lia).
      destruct (Z.eq_dec g b0) as [->|Hne].
      + rewrite mark_run_head in Hg' by auto. apply HoS_not_Free. auto.
      + rewrite mark_run_tail in Hg' by (auto; lia). apply Used_not_Free. auto. }
  rewrite get_frames_eq, Hres. cbn [snd]. auto.
Qed.

(** X16.  Frames marked by [mark_inaccessible] right after a run are
    freed with it: as they are [Used] and have no head of their own, the
    walk of [release_frames] on the head of the run goes through them. *)
Theorem release_swallows_marked_frames k p h b c g :
  pool_wf p -> owner (pools k) h = Some p -> get_state p (mem k) h = HoS ->
  h < b -> (forall x, h < x < b -> get_state p (mem k) x = Used) ->
  1 <= c -> b + c <= base_frame_no p + n_frames p ->
  h <= g < b + c ->
  let m' := mark_inaccessible p (mem k) b c in
  get_state p (mem (release_frames (mkKernel m' (pools k) (console k)) h)) g = Free.
Proof.
  intros Hwf Hown Hh Hhb Hrun Hc He Hg. cbv zeta.
  destruct (owner_In _ _ _ Hown) as [_ Hin]. apply owns_in_range in Hin; auto.
  pose proof Hin as Hin'. unfold in_range in Hin'.
  set (m' := mark_inaccessible p (mem k) b c).
  assert (Hloop : m' = for_loop (Z.to_nat c) b (fun f m => set_state p m f Used) (mem k)).
  { apply mark_inaccessible_loop; auto; lia. }
  assert (Hmarked : forall x, b <= x < b + c -> get_state p m' x = Used).
  { intros x Hx. rewrite Hloop.
    apply (for_loop_set_hit p (fun y => y) Used Hwf Used_bits); [|lia].
    intros i Hi. unfold in_range. lia. }
  assert (Hkept : forall x, in_range p x -> x < b ->
            get_state p m' x = get_state p (mem k) x).
  { intros x Hx Hxb. rewrite Hloop.
    apply (for_loop_set_miss p (fun y => y) Used Hwf Used_bits); [|exact Hx].
    intros i Hi. unfold in_range. lia. }
  assert (Hhead : get_state p m' h = HoS) by (rewrite Hkept; auto).
  destruct (release_in_pool_head p Hwf m' h Hin Hhead) as (b' & _ & Hrel).
  rewrite release_frames_eq. cbn [mem pools console].
  rewrite release_frames_in_owner, Hown.
  destruct Hrel as (Hb1 & _ & Hb3 & Hb4 & _).
  apply Hb4. split; [lia|].
  destruct (Z.lt_ge_cases b' (b + c)) as [Hlt|Hge]; [exfalso|lia].
  destruct Hb3 as [Hb3|Hb3]; [lia|]. apply Hb3.
  destruct (Z.lt_ge_cases b' b) as [Hlt'|Hge'].
  - rewrite Hkept; [apply Hrun; lia|unfold in_range; lia|exact Hlt'].
  - apply Hmarked. lia.
Qed.

End ContFramePool.

(** * The allocator at work

    Configuration of the examples: 32-bit [unsigned long], 4 KiB frames,
    enumerators numbered in the order the spec lists them. *)
Definition W32 : Z := 32.
Definition FRAME_4K : Z := 4096.
Definition Used1 : FrameState := 1.
Definition HoS2 : FrameState := 2.

(** A machine that has just booted: stale memory, no pool, nothing on
    the console. *)
Definition boot : kernel := mkKernel (fun _ => 255) [] [].

(** The pool of the scenario of the spec: frames [[100, 200)], state map
    self-hosted in the one frame it needs. *)
Definition pool100 : ContFramePool := mkPool 101 99 0 25 409600.

Definition kernel100 : kernel :=
  mkKernel (zero_bitmap pool100 (snd (init_pool W32 FRAME_4K Used1 100 100 0 (mem boot))))
           [pool100] [msg_initialized].

(** The same kernel once the client holds the run of five frames at 101. *)
Definition kernel100_run : kernel :=
  mkKernel (fst (get_frames W32 Used1 HoS2 pool100 (mem kernel100) 5))
           (pools kernel100) (console kernel100).

(** A second pool, over frames [[300, 350)], constructed while the run is
    held; its state map lives in frame 150. *)
Definition pool300 : ContFramePool := mkPool 300 50 150 13 614400.

Definition kernel300 : kernel :=
  mkKernel (zero_bitmap pool300 (mem kernel100_run))
           [pool100; pool300] [msg_initialized; msg_initialized].

(** A pool over frames [[0, 4)] with its state map in frame 8. *)
Definition pool0 : ContFramePool := mkPool 0 4 8 1 32768.

Definition kernel0 : kernel :=
  mkKernel (zero_bitmap pool0 (mem boot)) [pool0] [msg_initialized].

Lemma W32_min : 32 <= W32.
Proof. unfold W32. lia. Qed.

Lemma FRAME_4K_ok : frame_size_ok FRAME_4K.
Proof. unfold frame_size_ok, FRAME_4K. lia. Qed.

Lemma enumerators_12_ok : enumerators_ok Used1 HoS2.
Proof. unfold enumerators_ok, Used1, HoS2. lia. Qed.

Lemma range_100_ok : range_ok W32 100 100.
Proof. unfold range_ok, W32. lia. Qed.

Lemma pool100_wf : pool_wf W32 pool100.
Proof. unfold pool_wf, pool100, W32. cbn [base_frame_no n_frames]. lia. Qed.

Lemma construct100 :
  construct W32 FRAME_4K Used1 100 100 0 boot = Some (pool100, kernel100).
Proof. reflexivity. Qed.

Lemma construct300 :
  construct W32 FRAME_4K Used1 300 50 150 kernel100_run = Some (pool300, kernel300).
Proof. reflexivity. Qed.

Lemma pool100_separate : separate pool300 pool100.
Proof.
  unfold separate, in_range, pool300, pool100.
  cbn [base_frame_no n_frames bitmap]. split; [intros f Hf; lia|].
  left. change ((2 * 99 + 7) / 8) with 25. lia.
Qed.

Lemma construct0 :
  construct W32 FRAME_4K Used1 0 4 8 boot = Some (pool0, kernel0).
Proof. reflexivity. Qed.

(** The scenario of the spec: [get_frames(5)] returns 101 and marks
    101 [HoS], 102..105 [Used]; [get_frames(3)] returns 106;
    [release_frames(101)] frees 101..105; [get_frames(5)] returns 101
    again. *)
Example spec_scenario :
  let (m1, r1) := get_frames W32 Used1 HoS2 pool100 (mem kernel100) 5 in
  let (m2, r2) := get_frames W32 Used1 HoS2 pool100 m1 3 in
  let k3 := release_frames W32 Used1 HoS2 (mkKernel m2 [pool100] []) 101 in
  let (m4, r4) := get_frames W32 Used1 HoS2 pool100 (mem k3) 5 in
  (r1, r2, r4) = (101, 106, 101) /\
  map (get_state W32 pool100 m1) [101; 102; 103; 104; 105; 106] = [2; 1; 1; 1; 1; 0] /\
  map (get_state W32 pool100 (mem k3)) [101; 102; 103; 104; 105; 106; 107; 108; 109]
    = [0; 0; 0; 0; 0; 2; 1; 1; 0] /\
  console k3 = [].
Proof. vm_compute. repeat split. Qed.

(** Two pools: the run of five frames is held in [pool100] when [pool300]
    is constructed.  Frames are then taken from both pools and released by
    number; [release_frames 300] frees the run of [pool300] and
    [release_frames 101] the one of [pool100].  At the end [pool300] holds
    the runs at 300 (two frames) and 305 (three frames). *)
Example two_pools_scenario :
  let cs := [Get 5; GetOther pool100 2; Get 3; Release 300; Release 101;
             Get 2; Release 7; Get 0] in
  let st := do_calls W32 Used1 HoS2 pool300 (kernel300, []) cs in
  snd st = [(300, 2); (305, 3)] /\
  map (get_state W32 pool300 (mem (fst st))) [300; 301; 302; 303; 304; 305; 306; 307; 308]
    = [2; 1; 0; 0; 0; 2; 1; 1; 0] /\
  map (get_state W32 pool100 (mem (fst st))) [101; 102; 103; 104; 105; 106; 107; 108]
    = [0; 0; 0; 0; 0; 2; 1; 0] /\
  console (fst st) = [msg_initialized; msg_initialized; msg_no_pool].
Proof. vm_compute. repeat split. Qed.

(** [mark_inaccessible(110, 3)] leaves frames 110, 111 and 112 [Used];
    [release_frames(110)] is then refused, as 110 is no head of
    sequence. *)
Example mark_inaccessible_scenario :
  let m := mark_inaccessible W32 Used1 pool100 (mem kernel100) 110 3 in
  let k := release_frames W32 Used1 HoS2 (mkKernel m [pool100] []) 110 in
  map (get_state W32 pool100 m) [109; 110; 111; 112; 113] = [0; 1; 1; 1; 0] /\
  map (get_state W32 pool100 (mem k)) [109; 110; 111; 112; 113] = [0; 1; 1; 1; 0] /\
  console k = [msg_not_head].
Proof. vm_compute. repeat split. Qed.

(** The self-hosted constructor on frames [[100, 200)]: the slot written
    for the metadata frame 100 reads [Used] after the marking loop and
    [Free] once the constructor has returned, when it is the slot of
    frame 101. *)
Example constructor_scenario :
  let p0 := mkPool 100 100 0 25 409600 in
  let m1 := snd (init_pool W32 FRAME_4K Used1 100 100 0 (mem boot)) in
  get_state W32 p0 m1 100 = 1 /\
  get_state W32 p0 (mem kernel100) 100 = 0 /\
  get_state W32 pool100 (mem kernel100) 101 = 0 /\
  slot_byte p0 100 = slot_byte pool100 101 /\
  slot_shift p0 100 = slot_shift pool100 101.
Proof. vm_compute. repeat split. Qed.

(** ** The theorems at the pools of the scenarios *)

Lemma constructor_leaves_all_free_witness :
  exists p k',
    construct W32 FRAME_4K Used1 100 100 0 boot = Some (p, k') /\
    (forall f, in_range p f -> get_state W32 p (mem k') f = Free) /\
    (forall i, 0 <= i < bitmap_size p -> mem k' (bitmap p + i) = 0) /\
    (forall f, 100 <= f < 100 + 100 ->
       get_state W32 (mkPool 100 100 0 (bitmap_size p) (bitmap p)) (mem k') f = Free) /\
    (0 = 0 ->
       base_frame_no p = 100 + needed_info_frames W32 FRAME_4K 100 /\
       n_frames p = 100 - needed_info_frames W32 FRAME_4K 100) /\
    (0 <> 0 -> base_frame_no p = 100 /\ n_frames p = 100).
Proof.
  apply (constructor_leaves_all_free W32 FRAME_4K Used1 W32_min FRAME_4K_ok).
  - exact range_100_ok.
  - cbn. lia.
Defined.

Lemma run_integrity_witness :
  let cs := [Get 5; GetOther pool100 2; Get 3; Release 300; Release 101;
             Get 2; Release 7; Get 0] in
  let k := fst (do_calls W32 Used1 HoS2 pool300 (kernel300, []) cs) in
  let live := snd (do_calls W32 Used1 HoS2 pool300 (kernel300, []) cs) in
  (forall h n, In (h, n) live ->
     in_range pool300 h /\ h + n <= base_frame_no pool300 + n_frames pool300 /\
     (forall g, h <= g < h + n -> (get_state W32 pool300 (mem k) g = HoS2 <-> g = h)) /\
     (forall g, h < g < h + n -> get_state W32 pool300 (mem k) g = Used1) /\
     (forall g, h <= g < h + n -> get_state W32 pool300 (mem k) g <> Free)) /\
  (forall g, in_range pool300 g -> covered live g = false ->
     get_state W32 pool300 (mem k) g = Free).
Proof.
  apply (run_integrity W32 FRAME_4K Used1 HoS2 W32_min FRAME_4K_ok enumerators_12_ok
           300 50 150 kernel100_run pool300 kernel300).
  - unfold range_ok, W32. lia.
  - exact construct300.
  - intros q [<-|[]]. split; [exact pool100_wf|exact pool100_separate].
  - repeat constructor; unfold W32; lia.
Defined.

Lemma get_frames_first_fit_witness :
  in_range pool100 101 /\ 101 + 5 <= base_frame_no pool100 + n_frames pool100 /\
  free_run W32 pool100 (mem kernel100) 101 5 /\
  (forall g, base_frame_no pool100 <= g < 101 ->
     ~ free_run W32 pool100 (mem kernel100) g 5).
Proof.
  apply (get_frames_first_fit W32 Used1 HoS2 W32_min pool100 (mem kernel100) 5
           (mem kernel100_run) 101).
  - exact pool100_wf.
  - unfold W32. lia.
  - reflexivity.
  - lia.
Defined.

Lemma release_frames_frees_run_witness :
  exists b,
    101 < b <= base_frame_no pool100 + n_frames pool100 /\
    (forall g, 101 < g < b -> get_state W32 pool100 (mem kernel100_run) g = Used1) /\
    (b = base_frame_no pool100 + n_frames pool100 \/
     get_state W32 pool100 (mem kernel100_run) b <> Used1) /\
    (forall g, 101 <= g < b ->
       get_state W32 pool100 (mem (release_frames W32 Used1 HoS2 kernel100_run 101)) g = Free) /\
    (forall g, in_range pool100 g -> g < 101 \/ b <= g ->
       get_state W32 pool100 (mem (release_frames W32 Used1 HoS2 kernel100_run 101)) g =
       get_state W32 pool100 (mem kernel100_run) g) /\
    (forall a, a < bitmap pool100 \/ bitmap pool100 + (2 * n_frames pool100 + 7) / 8 <= a ->
       mem (release_frames W32 Used1 HoS2 kernel100_run 101) a = mem kernel100_run a) /\
    pools (release_frames W32 Used1 HoS2 kernel100_run 101) = pools kernel100_run /\
    console (release_frames W32 Used1 HoS2 kernel100_run 101) = console kernel100_run.
Proof.
  apply (release_frames_frees_run W32 Used1 HoS2 W32_min kernel100_run pool100 101).
  - exact pool100_wf.
  - reflexivity.
  - reflexivity.
Defined.

Lemma release_frames_error_witness :
  mem (release_frames W32 Used1 HoS2 kernel100_run 103) = mem kernel100_run /\
  pools (release_frames W32 Used1 HoS2 kernel100_run 103) = pools kernel100_run /\
  console (release_frames W32 Used1 HoS2 kernel100_run 103) =
    console kernel100_run ++
      [match owner W32 (pools kernel100_run) 103 with
       | None => msg_no_pool
       | Some _ => msg_not_head
       end].
Proof.
  apply (release_frames_error W32 Used1 HoS2 kernel100_run 103).
  right. exists pool100. split; [reflexivity|].
  vm_compute. discriminate.
Defined.

Lemma get_frames_zero_iff_witness :
  snd (get_frames W32 Used1 HoS2 pool100 (mem kernel100) 5) = 0 <->
  (5 = 0 \/
   ~ exists g, base_frame_no pool100 <= g /\
               g + 5 <= base_frame_no pool100 + n_frames pool100 /\
               free_run W32 pool100 (mem kernel100) g 5).
Proof.
  apply (get_frames_zero_iff W32 Used1 HoS2 W32_min pool100 (mem kernel100) 5).
  - exact pool100_wf.
  - cbn. lia.
  - unfold W32. lia.
Defined.

(** C5 as stated fails on a pool whose range starts at frame 0:
    [get_frames(1)] allocates frame 0 and returns it, and the caller reads
    the 0 as the sentinel although a free frame existed. *)
Lemma get_frames_zero_iff_fails_at_frame_zero :
  construct W32 FRAME_4K Used1 0 4 8 boot = Some (pool0, kernel0) /\
  pool_wf W32 pool0 /\
  get_state W32 pool0 (mem kernel0) 0 = Free /\
  get_state W32 pool0 (fst (get_frames W32 Used1 HoS2 pool0 (mem kernel0) 1)) 0 = HoS2 /\
  ~ (snd (get_frames W32 Used1 HoS2 pool0 (mem kernel0) 1) = 0 <->
     (1 = 0 \/
      ~ exists g, base_frame_no pool0 <= g /\
                  g + 1 <= base_frame_no pool0 + n_frames pool0 /\
                  free_run W32 pool0 (mem kernel0) g 1)).
Proof.
  split; [exact construct0|]. split; [|split; [reflexivity|split; [reflexivity|]]].
  - unfold pool_wf, pool0, W32. cbn [base_frame_no n_frames]. lia.
  - intros [H _].
    destruct H as [H|H]; [reflexivity|discriminate|].
    apply H. exists 0. split; [cbn; lia|]. split; [cbn; lia|].
    intros x Hx. assert (x = 0) as -> by lia. reflexivity.
Qed.

Lemma mark_inaccessible_marks_used_witness :
  (forall f, 110 <= f < 110 + 3 ->
     get_state W32 pool100 (mark_inaccessible W32 Used1 pool100 (mem kernel100) 110 3) f
     = Used1) /\
  get_state W32 pool100 (mark_inaccessible W32 Used1 pool100 (mem kernel100) 110 3) 110
  <> HoS2.
Proof.
  apply (mark_inaccessible_marks_used W32 Used1 HoS2 W32_min enumerators_12_ok).
  - exact pool100_wf.
  - cbn. lia.
  - lia.
  - cbn. lia.
Defined.

Lemma constructor_metadata_marks_witness :
  let p0 := mkPool 100 100 0 (bitmap_size pool100) (bitmap pool100) in
  let m1 := snd (init_pool W32 FRAME_4K Used1 100 100 0 (mem boot)) in
  get_state W32 p0 m1 100 = Used1 /\
  get_state W32 p0 m1 100 <> HoS2 /\
  get_state W32 p0 (mem kernel100) 100 = Free.
Proof.
  apply (constructor_metadata_marks W32 FRAME_4K Used1 HoS2 W32_min FRAME_4K_ok
           enumerators_12_ok boot 100 100 pool100 kernel100).
  - exact range_100_ok.
  - exact construct100.
  - change (needed_info_frames W32 FRAME_4K 100) with 1. lia.
Defined.

Lemma release_then_get_frames_same_witness :
  let k2 := release_frames W32 Used1 HoS2
              (mkKernel (mem kernel100_run) (pools kernel100) (console kernel100)) 101 in
  snd (get_frames_result W32 Used1 HoS2 pool100 (mem k2) 5) = Some 101 /\
  snd (get_frames W32 Used1 HoS2 pool100 (mem k2) 5) = 101 /\
  console k2 = console kernel100.
Proof.
  apply (release_then_get_frames_same W32 Used1 HoS2 W32_min enumerators_12_ok
           kernel100 pool100 5 (mem kernel100_run) 101).
  - exact pool100_wf.
  - unfold W32. lia.
  - reflexivity.
  - reflexivity.
Defined.

Lemma metadata_frames_never_returned_witness :
  let cs := [Get 5; Get 3; Release 101] in
  let m := mem (fst (do_calls W32 Used1 HoS2 pool100 (kernel100, []) cs)) in
  let m' := fst (get_frames W32 Used1 HoS2 pool100 m 4) in
  ((snd (get_frames_result W32 Used1 HoS2 pool100 m 4) = None /\
    101 = 0 /\ m' = m) \/
   (snd (get_frames_result W32 Used1 HoS2 pool100 m 4) = Some 101 /\
    100 + needed_info_frames W32 FRAME_4K 100 <= 101 < 100 + 100)) /\
  (0 < 100 -> ~ (100 <= 101 < 100 + needed_info_frames W32 FRAME_4K 100)).
Proof.
  apply (metadata_frames_never_returned W32 FRAME_4K Used1 HoS2 W32_min FRAME_4K_ok
           100 100 boot pool100 kernel100 [Get 5; Get 3; Release 101] 4).
  - exact range_100_ok.
  - exact construct100.
  - unfold W32. lia.
  - reflexivity.
Defined.

(** ** The further properties at the pools of the scenarios *)

Lemma state_map_read_after_write_witness :
  get_state W32 pool100 (set_state W32 pool100 (mem kernel100_run) 103 2) 102 =
    (if 102 =? 103 then 2 else get_state W32 pool100 (mem kernel100_run) 102) /\
  (forall a, a <> bitmap pool100 + (103 - base_frame_no pool100) / 4 ->
     set_state W32 pool100 (mem kernel100_run) 103 2 a = mem kernel100_run a).
Proof.
  apply (state_map_read_after_write W32 W32_min pool100 (mem kernel100_run) 103 102 2).
  - exact pool100_wf.
  - unfold in_range. cbn. lia.
  - unfold in_range. cbn. lia.
  - lia.
Defined.

Lemma needed_info_frames_fits_witness :
  let k := needed_info_frames W32 FRAME_4K 20000 in
  (2 * 20000 + 7) / 8 <= k * FRAME_4K /\
  (k - 1) * FRAME_4K < (2 * 20000 + 7) / 8 /\
  20000 <= 4 * FRAME_4K * k /\
  (20000 = 0 -> k = 0).
Proof.
  apply (needed_info_frames_fits W32 FRAME_4K W32_min FRAME_4K_ok 20000).
  - lia.
  - unfold W32. lia.
  - reflexivity.
Defined.

Lemma self_hosted_bitmap_in_metadata_frames_witness :
  100 * FRAME_4K <= bitmap pool100 + 24 < base_frame_no pool100 * FRAME_4K.
Proof.
  apply (self_hosted_bitmap_in_metadata_frames W32 FRAME_4K Used1 W32_min FRAME_4K_ok
           100 100 boot pool100 kernel100 24).
  - exact range_100_ok.
  - lia.
  - reflexivity.
  - exact construct100.
  - cbn. lia.
Defined.

Lemma get_frames_marks_run_witness :
  get_state W32 pool100 (mem kernel100_run) 101 = HoS2 /\
  (forall g, 101 < g < 101 + 5 -> get_state W32 pool100 (mem kernel100_run) g = Used1) /\
  (forall g, in_range pool100 g -> g < 101 \/ 101 + 5 <= g ->
     get_state W32 pool100 (mem kernel100_run) g = get_state W32 pool100 (mem kernel100) g) /\
  (forall a, a < bitmap pool100 \/ bitmap pool100 + (2 * n_frames pool100 + 7) / 8 <= a ->
     mem kernel100_run a = mem kernel100 a).
Proof.
  apply (get_frames_marks_run W32 Used1 HoS2 W32_min enumerators_12_ok
           pool100 (mem kernel100) 5 (mem kernel100_run) 101).
  - exact pool100_wf.
  - unfold W32. lia.
  - reflexivity.
  - lia.
Defined.

Lemma get_frames_failure_no_effect_witness :
  fst (get_frames W32 Used1 HoS2 pool100 (mem kernel100_run) 95) = mem kernel100_run.
Proof.
  apply (get_frames_failure_no_effect W32 Used1 HoS2 W32_min
           pool100 (mem kernel100_run) 95).
  - exact pool100_wf.
  - cbn. lia.
  - unfold W32. lia.
  - reflexivity.
Defined.

Lemma get_frames_oversize_witness :
  get_frames W32 Used1 HoS2 pool100 (mem kernel100_run) 100 = (mem kernel100_run, 0).
Proof.
  apply (get_frames_oversize W32 Used1 HoS2 W32_min pool100 (mem kernel100_run) 100).
  - exact pool100_wf.
  - unfold W32. cbn. lia.
Defined.

Lemma successive_runs_disjoint_witness :
  let m2 := fst (get_frames_result W32 Used1 HoS2 pool100 (mem kernel100_run) 3) in
  (101 + 5 <= 106 \/ 106 + 3 <= 101) /\
  get_state W32 pool100 m2 101 = HoS2 /\
  (forall g, 101 < g < 101 + 5 -> get_state W32 pool100 m2 g = Used1).
Proof.
  apply (successive_runs_disjoint W32 Used1 HoS2 W32_min enumerators_12_ok
           pool100 (mem kernel100) 5 3 (mem kernel100_run)).
  - exact pool100_wf.
  - unfold W32. lia.
  - unfold W32. lia.
  - reflexivity.
  - reflexivity.
Defined.

Lemma double_release_refused_witness :
  let k1 := release_frames W32 Used1 HoS2 kernel100_run 101 in
  let k2 := release_frames W32 Used1 HoS2 k1 101 in
  get_state W32 pool100 (mem k1) 101 = Free /\
  mem k2 = mem k1 /\ pools k2 = pools kernel100_run /\
  console k2 = console kernel100_run ++ [msg_not_head].
Proof.
  apply (double_release_refused W32 Used1 HoS2 W32_min enumerators_12_ok
           kernel100_run pool100 101).
  - exact pool100_wf.
  - reflexivity.
  - reflexivity.
Defined.

Lemma get_then_release_restores_witness :
  get_state W32 pool100
    (fst (release_frames_in W32 Used1 HoS2 [pool100] (mem kernel100_run) 101)) 103
  = get_state W32 pool100 (mem kernel100) 103.
Proof.
  apply (get_then_release_restores W32 Used1 HoS2 W32_min enumerators_12_ok
           pool100 [pool100] (mem kernel100) 5 (mem kernel100_run) 101 103).
  - exact pool100_wf.
  - unfold W32. lia.
  - reflexivity.
  - reflexivity.
  - right. vm_compute. discriminate.
  - unfold in_range. cbn. lia.
Defined.

Lemma mark_inaccessible_elsewhere_witness :
  (forall g, in_range pool100 g -> g < 110 \/ 110 + 3 <= g ->
     get_state W32 pool100 (mark_inaccessible W32 Used1 pool100 (mem kernel100_run) 110 3) g
     = get_state W32 pool100 (mem kernel100_run) g) /\
  (forall a, a < bitmap pool100 \/ bitmap pool100 + (2 * n_frames pool100 + 7) / 8 <= a ->
     mark_inaccessible W32 Used1 pool100 (mem kernel100_run) 110 3 a = mem kernel100_run a) /\
  (3 = 0 -> mark_inaccessible W32 Used1 pool100 (mem kernel100_run) 110 3 = mem kernel100_run).
Proof.
  apply (mark_inaccessible_elsewhere W32 Used1 HoS2 W32_min enumerators_12_ok).
  - exact pool100_wf.
  - cbn. lia.
  - lia.
  - cbn. lia.
Defined.

Lemma release_after_mark_inaccessible_refused_witness :
  let m' := mark_inaccessible W32 Used1 pool100 (mem kernel100) 110 3 in
  let k' := release_frames W32 Used1 HoS2
              (mkKernel m' (pools kernel100) (console kernel100)) 110 in
  mem k' = m' /\
  console k' = console kernel100 ++ [msg_not_head] /\
  get_state W32 pool100 (mem k') 111 = Used1.
Proof.
  apply (release_after_mark_inaccessible_refused W32 Used1 HoS2 W32_min enumerators_12_ok
           kernel100 pool100 110 3 111).
  - exact pool100_wf.
  - reflexivity.
  - lia.
  - cbn. lia.
  - lia.
Defined.

Lemma pool300_wf : pool_wf W32 pool300.
Proof. unfold pool_wf, pool300, W32. cbn [base_frame_no n_frames]. lia. Qed.

Lemma other_pool_untouched_witness :
  get_state W32 pool100 (fst (get_frames W32 Used1 HoS2 pool300 (mem kernel300) 5)) 101
    = get_state W32 pool100 (mem kernel300) 101 /\
  get_state W32 pool100
    (fst (release_frames_in W32 Used1 HoS2 [pool100; pool300] (mem kernel300) 300)) 101
    = get_state W32 pool100 (mem kernel300) 101.
Proof.
  apply (other_pool_untouched W32 Used1 HoS2 W32_min enumerators_12_ok
           pool300 pool100 [pool100; pool300] (mem kernel300) 5 300 101).
  - exact pool300_wf.
  - exact pool100_wf.
  - exact (proj2 pool100_separate).
  - unfold W32. lia.
  - reflexivity.
  - unfold in_range. cbn. lia.
Defined.

Lemma construct_touches_own_bitmap_only_witness :
  mem kernel300 409600 = mem kernel100_run 409600 /\
  pools kernel300 = pools kernel100_run ++ [pool300] /\
  console kernel300 = console kernel100_run ++ [msg_initialized].
Proof.
  apply (construct_touches_own_bitmap_only W32 FRAME_4K Used1 W32_min FRAME_4K_ok
           300 50 150 kernel100_run pool300 kernel300 409600).
  - unfold range_ok, W32. lia.
  - exact construct300.
  - left. cbn. lia.
Defined.

Lemma new_pool_first_run_witness :
  snd (get_frames_result W32 Used1 HoS2 pool100 (mem kernel100) 5)
    = Some (base_frame_no pool100) /\
  snd (get_frames W32 Used1 HoS2 pool100 (mem kernel100) 5) = base_frame_no pool100.
Proof.
  apply (new_pool_first_run W32 FRAME_4K Used1 HoS2 W32_min FRAME_4K_ok
           100 100 0 boot pool100 kernel100 5).
  - exact range_100_ok.
  - exact construct100.
  - cbn. lia.
Defined.

Lemma new_pool_second_run_witness :
  let m1 := fst (get_frames W32 Used1 HoS2 pool100 (mem kernel100) 5) in
  snd (get_frames_result W32 Used1 HoS2 pool100 m1 3) = Some (base_frame_no pool100 + 5) /\
  snd (get_frames W32 Used1 HoS2 pool100 m1 3) = base_frame_no pool100 + 5.
Proof.
  apply (new_pool_second_run W32 FRAME_4K Used1 HoS2 W32_min FRAME_4K_ok enumerators_12_ok
           100 100 0 boot pool100 kernel100 5 3).
  - exact range_100_ok.
  - exact construct100.
  - lia.
  - lia.
  - cbn. lia.
Defined.

Lemma release_swallows_marked_frames_witness :
  let m' := mark_inaccessible W32 Used1 pool100 (mem kernel100_run) 106 3 in
  get_state W32 pool100
    (mem (release_frames W32 Used1 HoS2
            (mkKernel m' (pools kernel100_run) (console kernel100_run)) 101)) 107
  = Free.
Proof.
  apply (release_swallows_marked_frames W32 Used1 HoS2 W32_min enumerators_12_ok
           kernel100_run pool100 101 106 3 107).
  - exact pool100_wf.
  - reflexivity.
  - reflexivity.
  - lia.
  - intros x Hx.
    assert (Hx' : x = 102 \/ x = 103 \/ x = 104 \/ x = 105) by lia.
    destruct Hx' as [E|[E|[E|E]]]; rewrite E; reflexivity.
  - lia.
  - cbn. lia.
  - lia.
Defined.
